(** * git-meta: [diff_util.js] and [merge_bare.js]

    A shallow embedding of the status reader, the diff-target resolver, the
    submodule diff command builder and the [merge-bare] command, followed by
    the properties established about them.

    Conventions.
    - A JavaScript function that may [throw] returns a [result]; a [co.wrap]
      generator that also logs, spawns a process or runs a hook returns a
      [Co], which pairs the events performed so far with a [result].
    - Plain JS objects used as dictionaries are [gmap string _].
    - Collaborators that are not part of these files (NodeGit's diff
      primitives, [GitUtil], [MergeUtil], [TreeUtil], [Hook]) are fields of an
      interface record and are passed explicitly. *)

From Stdlib Require Import ZArith String Ascii List Lia.
From stdpp Require Import base option list gmap strings pretty.

Local Open Scope Z_scope.
Local Open Scope string_scope.

(** ** Exceptions, results and effects *)

Module Js.

Inductive exn : Type :=
| AssertionError (msg : string)
| UserError (msg : string)
| TypeError (msg : string)
| ChildProcessError (msg : string) (code : Z).

Inductive result (A : Type) : Type :=
| Ok (a : A)
| Throw (e : exn).
Global Arguments Ok {A} a.
Global Arguments Throw {A} e.

Global Instance result_ret : MRet result := fun _ a => Ok a.
Global Instance result_bind : MBind result := fun _ _ f m =>
  match m with
  | Ok a => f a
  | Throw e => Throw e
  end.

(** [assert(false, msg)] of chai. *)
Definition assert_false {A : Type} (msg : string) : result A :=
  Throw (AssertionError msg).

(** [obj[key] = value] on an object created by the literal [{}].  The key
    ["__proto__"] reaches the inherited setter, which ignores a value that
    is neither an object nor [null]: no own property is created. *)
Definition set_property {V : Type}
    (obj : gmap string V) (key : string) (value : V) : gmap string V :=
  if decide (key = "__proto__") then obj else <[key := value]> obj.

(** [Array.prototype.indexOf]: the first position of [x], or [-1]. *)
Fixpoint indexOf (l : list string) (x : string) : Z :=
  match l with
  | [] => -1
  | y :: l' =>
      if decide (y = x) then 0
      else let i := indexOf l' x in if decide (i = -1) then -1 else i + 1
  end.

(** [Array.prototype.includes]. *)
Definition includes (l : list string) (x : string) : bool :=
  bool_decide (x ∈ l).

(** [Array.prototype.slice(start, end)]: a negative index counts from the
    end, indices are clamped to the array, an empty range gives []. *)
Definition clamp_index (len i : Z) : Z :=
  if decide (i < 0) then Z.max (len + i) 0 else Z.min i len.

Definition slice {A : Type} (l : list A) (start stop : Z) : list A :=
  let len := Z.of_nat (length l) in
  let s := clamp_index len start in
  let e := clamp_index len stop in
  take (Z.to_nat (e - s)) (drop (Z.to_nat s) l).

(** The operand conversion of [|]: an [undefined] operand counts as 0. *)
Definition toInt32 (v : option Z) : Z := default 0 v.

(** [Array.prototype.join]. *)
Definition join (sep : string) (l : list string) : string :=
  String.concat sep l.

End Js.

Import Js.

(** ** [merge_common.js] and [open.js] *)

Module MergeCommon.

(** Modelled from the spec: [MergeCommon.MODE] ([merge_common.js] is not
    among the sources); the two modes the merge engine distinguishes. *)
Inductive MODE : Type := NORMAL | FORCE_COMMIT.

End MergeCommon.

Module Open.

(** Modelled from the spec: [Open.SUB_OPEN_OPTION] ([open.js] is not among
    the sources); the open options of the Opener contract. *)
Inductive SUB_OPEN_OPTION : Type := FORCE_OPEN | FORCE_BARE | PREFER_CACHED.

End Open.

(** ** Effects of a command *)

Module Effects.

(** What a command does to the outside world, in order.  [MergeCall]
    records that [MergeUtil.merge] was invoked, and with what. *)
Inductive event : Type :=
| ConsoleLog (line : string)
| Spawn (command : string)
| ExecHook (name : string) (args : list string)
| MergeCall (ours theirs : string) (mode : MergeCommon.MODE)
    (openOption : Open.SUB_OPEN_OPTION) (message : string).

Record Co (A : Type) : Type := MkCo {
  trace : list event;
  outcome : result A;
}.
Global Arguments MkCo {A} trace outcome.
Global Arguments trace {A} c.
Global Arguments outcome {A} c.

Global Instance Co_ret : MRet Co := fun _ a => MkCo [] (Ok a).
Global Instance Co_bind : MBind Co := fun _ _ f m =>
  match outcome m with
  | Ok a => let k := f a in MkCo (trace m ++ trace k) (outcome k)
  | Throw e => MkCo (trace m) (Throw e)
  end.

Definition throw {A : Type} (e : exn) : Co A := MkCo [] (Throw e).
Definition emit (ev : event) : Co unit := MkCo [ev] (Ok tt).
Definition lift {A : Type} (r : result A) : Co A := MkCo [] r.

End Effects.

Import Effects.

(** ** The part of NodeGit the code touches *)

Module NodeGit.

(** [NodeGit.Diff.DELTA]. *)
Inductive DELTA : Type :=
| UNMODIFIED | ADDED | DELETED | MODIFIED | RENAMED | COPIED
| IGNORED | UNTRACKED | TYPECHANGE | UNREADABLE | CONFLICTED.

Global Instance DELTA_eq_dec : EqDecision DELTA.
Proof. solve_decision. Defined.

(** The numeric value of each flag, as printed in messages. *)
Definition DELTA_value (flag : DELTA) : Z :=
  match flag with
  | UNMODIFIED => 0 | ADDED => 1 | DELETED => 2 | MODIFIED => 3
  | RENAMED => 4 | COPIED => 5 | IGNORED => 6 | UNTRACKED => 7
  | TYPECHANGE => 8 | UNREADABLE => 9 | CONFLICTED => 10
  end.

(** [NodeGit.TreeEntry.FILEMODE.COMMIT], octal 160000. *)
Definition FILEMODE_COMMIT : Z := 57344.
Definition FILEMODE_BLOB : Z := 33188.

(** [NodeGit.Diff.OPTION] bits used by the status reader.  The enumeration
    has no member [EXCLUDE_SUBMODULES] (that name belongs to
    [NodeGit.Status.OPT]): reading it gives [undefined]. *)
Definition INCLUDE_UNTRACKED : Z := Z.shiftl 1 3.
Definition RECURSE_UNTRACKED_DIRS : Z := Z.shiftl 1 4.
Definition EXCLUDE_SUBMODULES : option Z := None.

Record DiffFile : Type := MkDiffFile {
  path : string;
  mode : Z;
}.

Record DiffDelta : Type := MkDiffDelta {
  status : DELTA;
  oldFile : DiffFile;
  newFile : DiffFile;
}.

(** A diff is read through [numDeltas()] and [getDelta(i)] only. *)
Definition Diff : Type := list DiffDelta.

(** The options object handed to the diff primitives; [pathspec] is
    absent unless assigned. *)
Record DiffOptions : Type := MkDiffOptions {
  ignoreSubmodules : Z;
  flags : Z;
  pathspec : option (list string);
}.

(** The diff primitives and repository accessors, with the argument lists
    the callers use.  They are collaborators: nothing is assumed about the
    deltas they return. *)
Class Api (Repository Tree Index : Type) : Type := MkApi {
  repo_index : Repository -> Index;
  repo_workdir : Repository -> string;
  new_DiffOptions : DiffOptions;
  treeToWorkdir : Repository -> option Tree -> DiffOptions -> Diff;
  indexToWorkdir : Repository -> option Index -> DiffOptions -> Diff;
  treeToIndex :
    Repository -> option Tree -> option Index -> DiffOptions -> Diff;
  treeToTree :
    Repository -> option Tree -> option Tree -> DiffOptions -> Diff;
  treeToWorkdirWithIndex :
    Repository -> option Tree -> option Index -> DiffOptions -> Diff;
}.

End NodeGit.

Import NodeGit.

(** ** [repo_status.js] and [submodule_config_util.js] *)

Module RepoStatus.

(** Modelled from the spec: [RepoStatus.FILESTATUS] ([repo_status.js] is
    not among the sources); the tags are those of the specification's
    RepoStatus data model. *)
Inductive FILESTATUS : Type :=
| FS_MODIFIED | FS_ADDED | FS_REMOVED | FS_RENAMED | FS_TYPECHANGED.

Global Instance FILESTATUS_eq_dec : EqDecision FILESTATUS.
Proof. solve_decision. Defined.

End RepoStatus.

Import RepoStatus.

Module SubmoduleConfigUtil.

(** Modelled from the spec: [SubmoduleConfigUtil.modulesFileName]
    ([submodule_config_util.js] is not among the sources), the path of the
    submodule configuration file. *)
Definition modulesFileName : string := ".gitmodules".

End SubmoduleConfigUtil.

(** ** Node's [path] module and [process] *)

Module Path.

(** A model of Node's POSIX [path.relative], which the command builder
    calls: both arguments are resolved against the current directory to a
    normalised absolute path, the shared leading segments are removed, and
    the answer climbs out of what is left of [from] and descends into what
    is left of [to]. *)

Fixpoint split (s : string) : list string :=
  match s with
  | EmptyString => [EmptyString]
  | String c s' =>
      if decide (c = "/"%char) then EmptyString :: split s'
      else match split s' with
           | [] => [String c EmptyString]
           | seg :: segs => String c seg :: segs
           end
  end.

Definition isAbsolute (p : string) : bool := String.prefix "/" p.

(** Segments are pushed on a stack; an empty segment and ["."] are
    dropped, [".."] pops (and stays at the root). *)
Definition push_segment (stack : list string) (seg : string)
    : list string :=
  if decide (seg = "" ∨ seg = ".") then stack
  else if decide (seg = "..") then tail stack
  else seg :: stack.

Definition normalizeSegments (segs : list string) : list string :=
  rev (fold_left push_segment segs []).

(** [path.resolve(p)] as a list of segments below the root. *)
Definition resolve (cwd p : string) : list string :=
  normalizeSegments
    (if isAbsolute p then split p else split cwd ++ split p).

Fixpoint stripCommon (from to : list string)
    : list string * list string :=
  match from, to with
  | f :: from', t :: to' =>
      if decide (f = t) then stripCommon from' to' else (from, to)
  | _, _ => (from, to)
  end.

Definition relative (cwd from to : string) : string :=
  let '(up, down) := stripCommon (resolve cwd from) (resolve cwd to) in
  join "/" (replicate (length up) ".." ++ down).

End Path.

Module Process.

(** The ambient [process]: its argument vector and current directory. *)
Record t : Type := Mk {
  argv : list string;
  cwd : string;
}.

End Process.

Module TreeUtil.

(** [TreeUtil.revparseTreeish(repo, treeish)]; [tree_util.js] is not among
    the sources, so the resolver is a collaborator.  A [null] or
    [undefined] tree-ish is [None]. *)
Class Api (Repository Tree : Type) : Type := MkApi {
  revparseTreeish : Repository -> option string -> result (option Tree);
}.

End TreeUtil.

(** ** [child-process-promise] *)

Module ChildProcess.

(** What the outside world decides about a spawned command: the exit code
    of the shell that ran it.  [emptyFileMessage] is the text of the
    [TypeError] with which Node refuses an empty command; it varies with
    the Node release. *)
Class Api : Type := MkApi {
  exitCode : string -> Z;
  emptyFileMessage : string;
}.

(** [spawn(command, {shell: true, stdio: 'inherit'})], awaited.  An empty
    command is refused before any process is started; otherwise the
    promise resolves on exit code 0 and rejects on any other. *)
Definition spawn {shell : Api} (command : string) : Co unit :=
  if decide (command = "") then throw (TypeError emptyFileMessage)
  else
    _ ← emit (Spawn command);
    let code := exitCode command in
    if decide (code = 0) then mret tt
    else
      throw
        (ChildProcessError
           ("`" +:+ command +:+ "` failed with code " +:+ pretty code)
           code).

End ChildProcess.

(** ** [diff_util.js]: reading a diff into a status map *)

Module DiffUtil.

Definition convertDeltaFlag (flag : DELTA) : result FILESTATUS :=
  match flag with
  | MODIFIED => Ok FS_MODIFIED
  | ADDED => Ok FS_ADDED
  | DELETED => Ok FS_REMOVED
  | RENAMED => Ok FS_RENAMED
  | TYPECHANGE => Ok FS_TYPECHANGED
  | UNTRACKED => Ok FS_ADDED
  | _ =>
      assert_false
        ("Unrecognized DELTA type: " +:+ pretty (DELTA_value flag) +:+ ".")
  end.

(** The file a delta is filed under: the old side of a removal, the new
    side of anything else. *)
Definition deltaFile (fileStatus : FILESTATUS) (delta : DiffDelta)
    : DiffFile :=
  if decide (FS_REMOVED = fileStatus) then oldFile delta
  else newFile delta.

(** One iteration of the loop in [readDiff]. *)
Definition readDelta (acc : gmap string FILESTATUS) (delta : DiffDelta)
    : result (gmap string FILESTATUS) :=
  let diffStatus := status delta in
  if decide (CONFLICTED = diffStatus) then Ok acc
  else
    fileStatus ← convertDeltaFlag diffStatus;
    let file := deltaFile fileStatus delta in
    let path := path file in
    if decide (SubmoduleConfigUtil.modulesFileName ≠ path
               ∧ FILEMODE_COMMIT ≠ mode file)
    then Ok (set_property acc path fileStatus)
    else Ok acc.

Fixpoint readDeltas (acc : gmap string FILESTATUS) (deltas : list DiffDelta)
    : result (gmap string FILESTATUS) :=
  match deltas with
  | [] => Ok acc
  | delta :: rest => acc' ← readDelta acc delta; readDeltas acc' rest
  end.

Definition readDiff (diff : Diff) : result (gmap string FILESTATUS) :=
  readDeltas ∅ diff.

(** The condition under which an iteration assigns [result[p] = s]: the
    delta files [p] as [s]. *)
Definition filesAs (delta : DiffDelta) (p : string) (s : FILESTATUS)
    : Prop :=
  status delta ≠ CONFLICTED
  /\ convertDeltaFlag (status delta) = Ok s
  /\ path (deltaFile s delta) = p
  /\ p ≠ SubmoduleConfigUtil.modulesFileName
  /\ mode (deltaFile s delta) ≠ FILEMODE_COMMIT.

(** The delta assigns [result[p] = s]: it files [p] as [s] and [p] is a
    key an assignment creates. *)
Definition assigns (delta : DiffDelta) (p : string) (s : FILESTATUS)
    : Prop :=
  filesAs delta p s /\ p ≠ "__proto__".

(** [s] is the status of the last delta of the diff that assigns [p]. *)
Definition filedLast (diff : Diff) (p : string) (s : FILESTATUS) : Prop :=
  exists before delta after,
    diff = (before ++ delta :: after)%list
    /\ assigns delta p s
    /\ forall later s', later ∈ after -> ¬ assigns later p s'.

(** The map holds the diff: its entries are exactly the paths some delta
    assigns, each with the status of the last delta assigning it. *)
Definition holds (m : gmap string FILESTATUS) (diff : Diff) : Prop :=
  forall p s, m !! p = Some s <-> filedLast diff p s.

(** The statuses [readDiff] gets past: the conflict it skips and the
    ones [convertDeltaFlag] recognises. *)
Definition readableStatus (flag : DELTA) : bool :=
  match flag with
  | CONFLICTED | MODIFIED | ADDED | DELETED | RENAMED | TYPECHANGE
  | UNTRACKED => true
  | _ => false
  end.

Record Status : Type := MkStatus {
  staged : gmap string FILESTATUS;
  workdir : gmap string FILESTATUS;
}.

(** The [options] object built at the top of [getRepoStatus]. *)
Definition statusOptions (paths : list string) (allUntracked : bool)
    : DiffOptions :=
  let options :=
    {| ignoreSubmodules := 1;
       flags := Z.lor INCLUDE_UNTRACKED (toInt32 EXCLUDE_SUBMODULES);
       pathspec := None |} in
  let options :=
    if decide (0%nat ≠ length paths)
    then {| ignoreSubmodules := ignoreSubmodules options;
            flags := flags options;
            pathspec := Some paths |}
    else options in
  if allUntracked
  then {| ignoreSubmodules := ignoreSubmodules options;
          flags := Z.lor (flags options) RECURSE_UNTRACKED_DIRS;
          pathspec := pathspec options |}
  else options.

Section WithNodeGit.
Context {Repository Tree Index : Type}.
Context {git : Api Repository Tree Index}.

Definition getRepoStatus (repo : Repository) (tree : option Tree)
    (paths : list string) (ignoreIndex allUntracked : bool)
    : result Status :=
  let options := statusOptions paths allUntracked in
  if ignoreIndex then
    let workdirToTreeDiff := treeToWorkdir repo tree options in
    workdirToTreeStatus ← readDiff workdirToTreeDiff;
    Ok {| staged := ∅; workdir := workdirToTreeStatus |}
  else
    let index := repo_index repo in
    let workdirToIndexDiff := indexToWorkdir repo (Some index) options in
    workdirToIndexStatus ← readDiff workdirToIndexDiff;
    let indexToTreeDiff := treeToIndex repo tree None options in
    indexToTreeStatus ← readDiff indexToTreeDiff;
    Ok {| staged := indexToTreeStatus; workdir := workdirToIndexStatus |}.

(** The comparisons [getRepoStatus] asks the diff primitives for, in
    the order it reads them. *)
Definition comparisons (repo : Repository) (tree : option Tree)
    (paths : list string) (ignoreIndex allUntracked : bool)
    : list Diff :=
  let options := statusOptions paths allUntracked in
  if ignoreIndex then [treeToWorkdir repo tree options]
  else [indexToWorkdir repo (Some (repo_index repo)) options;
        treeToIndex repo tree None options].

(** *** Diff targets *)

(** The parsed arguments the [diff] command receives; [commits] may be
    absent. *)
Record Args : Type := MkArgs {
  commits : option (list string);
}.

(** The record [getOptions] builds.  A [null] and a missing property
    are both [None]. *)
Record Options : Type := MkOptions {
  diffOpts : DiffOptions;
  treeish1 : option string;
  treeish2 : option string;
  t1 : option Tree;
  t2 : option Tree;
  argOpts : list string;
  argPaths : list string;
}.

Context {treeUtil : TreeUtil.Api Repository Tree}.

(** [w !== treeish] for a string [w]. *)
Definition differs (w : string) (treeish : option string) : bool :=
  bool_decide (Some w ≠ treeish).

(** The tree-ish names selected from [args.commits]. *)
Definition selectTreeishes (args : Args) (argPaths : list string)
    : option string * option string :=
  match commits args with
  | Some (treeish1 :: more) =>
      if negb (includes argPaths treeish1) then
        (Some treeish1,
         match more with
         | treeish2 :: _ =>
             if negb (includes argPaths treeish2) then Some treeish2
             else None
         | [] => None
         end)
      else (None, None)
  | _ => (None, None)
  end.

Definition getOptions (process : Process.t) (repo : Repository)
    (args : Args) : result Options :=
  let argv := Process.argv process in
  let i0 := indexOf argv "diff" in
  let i0 := if decide (i0 = -1) then 0 else i0 in
  let i1 := indexOf argv "--" in
  let i1 := if decide (i1 = -1) then Z.of_nat (length argv) else i1 in
  let argOpts := slice argv (i0 + 1) i1 in
  let argPaths := slice argv (i1 + 1) (Z.of_nat (length argv)) in
  let '(treeish1, treeish2) := selectTreeishes args argPaths in
  let argOpts :=
    filter (λ w, differs w treeish1 && differs w treeish2) argOpts in
  t1 ← TreeUtil.revparseTreeish repo treeish1;
  t2 ← TreeUtil.revparseTreeish repo treeish2;
  Ok {| diffOpts := new_DiffOptions;
        treeish1 := treeish1;
        treeish2 := treeish2;
        t1 := t1;
        t2 := t2;
        argOpts := argOpts;
        argPaths := argPaths |}.

(** The two stretches of [process.argv] that [getOptions] cuts out:
    what stands between ["diff"] and ["--"], and what follows ["--"]. *)
Definition argvOptions (argv : list string) : list string :=
  let i0 := indexOf argv "diff" in
  let i0 := if decide (i0 = -1) then 0 else i0 in
  let i1 := indexOf argv "--" in
  let i1 := if decide (i1 = -1) then Z.of_nat (length argv) else i1 in
  slice argv (i0 + 1) i1.

Definition argvPaths (argv : list string) : list string :=
  let i1 := indexOf argv "--" in
  let i1 := if decide (i1 = -1) then Z.of_nat (length argv) else i1 in
  slice argv (i1 + 1) (Z.of_nat (length argv)).

(** *** The submodule diff command *)

(** The callback mapped over [argPaths]: [None] is the [null] that the
    following [filter] removes. *)
Definition relativePath (cwd subPath p : string) : option string :=
  let relative := Path.relative cwd subPath p in
  if String.prefix ".." relative then None
  else if decide (relative = "") then Some "."
  else Some relative.

Definition subDiffCmdBuilder (process : Process.t)
    (metaRepo subRepo : Repository) (opts : Options) : string :=
  let cwd := Process.cwd process in
  let metaDir := repo_workdir metaRepo in
  let subDir := repo_workdir subRepo in
  let subPath := Path.relative cwd metaDir subDir in
  let treeishStr := "" in
  if decide (0 < length (argPaths opts))%nat then
    let relativePaths := omap (relativePath cwd subPath) (argPaths opts) in
    if decide (length relativePaths = 0%nat) then ""
    else "git -C " +:+ subPath +:+ " diff " +:+ join " " (argOpts opts)
         +:+ " " +:+ treeishStr +:+ " -- " +:+ join " " relativePaths
  else "git -C " +:+ subPath +:+ " diff " +:+ join " " (argOpts opts)
       +:+ " " +:+ treeishStr.

Definition getDiffWithOptions (repo : Repository) (opts : Options)
    : Diff :=
  match t1 opts, t2 opts with
  | Some _, Some _ => treeToTree repo (t1 opts) (t2 opts) (diffOpts opts)
  | Some _, None =>
      treeToWorkdirWithIndex repo (t1 opts) None (diffOpts opts)
  | None, _ => indexToWorkdir repo None (diffOpts opts)
  end.

Context {shell : ChildProcess.Api}.

Definition printDiff (process : Process.t) (repo subRepo : Repository)
    (opts : Options) : Co unit :=
  let execStr := subDiffCmdBuilder process repo subRepo opts in
  _ ← emit (ConsoleLog ("qqqq execStr = '" +:+ execStr +:+ "'"));
  ChildProcess.spawn execStr.

End WithNodeGit.

End DiffUtil.

(** ** [merge_bare.js] *)

Module MergeBare.

(** [MergeUtil.merge] answers with an object carrying [metaCommit] and
    [errorMessage], each possibly [null]. *)
Record MergeResult : Type := MkMergeResult {
  metaCommit : option string;
  errorMessage : option string;
}.

(** The collaborators of the command: [GitUtil], [repo.getCommit],
    [MergeUtil.merge] (the no-op editor it is handed is left out) and
    [colors.red].  [resolveCommitish] answers with the id of the commit,
    or [None] for [null]. *)
Class Api (Repository Commit : Type) : Type := MkApi {
  getCurrentRepo : Repository;
  resolveCommitish : Repository -> string -> option string;
  getCommit : Repository -> string -> Commit;
  merge :
    Repository -> Commit -> Commit -> MergeCommon.MODE ->
    Open.SUB_OPEN_OPTION -> string -> MergeResult;
  colors_red : string -> string;
}.

(** The parsed arguments; a positional that was not given is [None]. *)
Record Args : Type := MkArgs {
  no_ff : bool;
  ourCommit : option string;
  theirCommit : option string;
  message : string;
}.

Definition couldNotResolve (shown : string) : string :=
  "Could not resolve " +:+ shown +:+ " to a commit.".

Section WithCollaborators.
Context {Repository Commit : Type}.
Context {env : Api Repository Commit}.

Definition executeableSubcommand (args : Args) : Co unit :=
  let repo := getCurrentRepo in
  let mode :=
    if no_ff args then MergeCommon.FORCE_COMMIT
    else MergeCommon.NORMAL in
  match ourCommit args, theirCommit args with
  | Some ourCommitName, Some theirCommitName =>
      match resolveCommitish repo ourCommitName with
      | None =>
          throw (UserError (couldNotResolve (colors_red ourCommitName)))
      | Some ourId =>
          match resolveCommitish repo theirCommitName with
          | None =>
              throw
                (UserError (couldNotResolve (colors_red theirCommitName)))
          | Some theirId =>
              let ourCommit := getCommit repo ourId in
              let theirCommit := getCommit repo theirId in
              _ ← emit (MergeCall ourId theirId mode Open.FORCE_BARE
                          (message args));
              let result :=
                merge repo ourCommit theirCommit mode Open.FORCE_BARE
                  (message args) in
              match errorMessage result with
              | Some msg => throw (UserError msg)
              | None =>
                  _ ← match metaCommit result with
                      | Some id => emit (ConsoleLog id)
                      | None => mret tt
                      end;
                  emit (ExecHook "post-merge" ["0"])
              end
          end
      end
  | _, _ => throw (UserError "Two commits must be given.")
  end.

End WithCollaborators.

(** What the merge engine answers for these arguments, when the command
    gets as far as calling it. *)
Definition mergeOutcome {Repository Commit : Type}
    {env : Api Repository Commit} (args : Args) : option MergeResult :=
  ourCommitName ← ourCommit args;
  theirCommitName ← theirCommit args;
  ourId ← resolveCommitish getCurrentRepo ourCommitName;
  theirId ← resolveCommitish getCurrentRepo theirCommitName;
  Some (merge getCurrentRepo
          (getCommit getCurrentRepo ourId)
          (getCommit getCurrentRepo theirId)
          (if no_ff args then MergeCommon.FORCE_COMMIT
           else MergeCommon.NORMAL)
          Open.FORCE_BARE (message args)).

(** How often a run executed the post-merge hook, and whether it reached
    the merge engine. *)
Definition isPostMerge (ev : event) : bool :=
  match ev with
  | ExecHook name _ => bool_decide (name = "post-merge")
  | _ => false
  end.

Definition isMergeCall (ev : event) : bool :=
  match ev with
  | MergeCall _ _ _ _ _ => true
  | _ => false
  end.

Definition hookRuns {A : Type} (run : Co A) : nat :=
  length (filter isPostMerge (trace run)).

Definition mergeCalls {A : Type} (run : Co A) : nat :=
  length (filter isMergeCall (trace run)).

End MergeBare.

(** ** A small in-memory repository

    Trees, the index and the working directory are finite maps from path to
    content id; the diff primitives compare two of them.  It serves
    to run the definitions above on concrete inputs. *)

Import DiffUtil.

Module Sample.

Record Repo : Type := MkRepo {
  dir : string;
  index : gmap string Z;
  files : gmap string Z;
  refs : list (string * gmap string Z);
}.

Definition blob (p : string) : DiffFile :=
  {| path := p; mode := FILEMODE_BLOB |}.
Definition absent (p : string) : DiffFile := {| path := p; mode := 0 |}.

Definition leftDelta (new : gmap string Z) (entry : string * Z)
    : option DiffDelta :=
  let '(p, c) := entry in
  match new !! p with
  | None => Some (MkDiffDelta DELETED (blob p) (absent p))
  | Some c' =>
      if decide (c = c') then None
      else Some (MkDiffDelta MODIFIED (blob p) (blob p))
  end.

Definition rightDelta (fresh : DELTA) (old : gmap string Z)
    (entry : string * Z) : option DiffDelta :=
  let '(p, _) := entry in
  match old !! p with
  | None => Some (MkDiffDelta fresh (absent p) (blob p))
  | Some _ => None
  end.

Definition compare (fresh : DELTA) (old new : gmap string Z) : Diff :=
  (omap (leftDelta new) (map_to_list old)
   ++ omap (rightDelta fresh old) (map_to_list new))%list.

Global Instance git : NodeGit.Api Repo (gmap string Z) (gmap string Z) := {|
  repo_index := index;
  repo_workdir := dir;
  new_DiffOptions :=
    {| ignoreSubmodules := 0; flags := 0; pathspec := None |};
  treeToWorkdir repo tree _ := compare UNTRACKED (default ∅ tree) (files repo);
  indexToWorkdir repo idx _ :=
    compare UNTRACKED (default (index repo) idx) (files repo);
  treeToIndex repo tree idx _ :=
    compare ADDED (default ∅ tree) (default (index repo) idx);
  treeToTree _ old new _ := compare ADDED (default ∅ old) (default ∅ new);
  treeToWorkdirWithIndex repo tree _ _ :=
    compare ADDED (default ∅ tree) (files repo);
|}.

(** A shell in which every command exits with 0. *)
Global Instance shell : ChildProcess.Api := {|
  ChildProcess.exitCode _ := 0;
  ChildProcess.emptyFileMessage :=
    "The argument 'file' cannot be empty. Received ''";
|}.

(** The same interface answering with three prepared diffs: one for a
    comparison of a tree with the working directory, one for the index
    with the working directory, one for anything else. *)
Definition scripted (treeWorkdir indexWorkdir other : Diff)
    : NodeGit.Api unit unit unit := {|
  repo_index _ := tt;
  repo_workdir _ := "/";
  new_DiffOptions :=
    {| ignoreSubmodules := 0; flags := 0; pathspec := None |};
  treeToWorkdir _ _ _ := treeWorkdir;
  indexToWorkdir _ _ _ := indexWorkdir;
  treeToIndex _ _ _ _ := other;
  treeToTree _ _ _ _ := other;
  treeToWorkdirWithIndex _ _ _ _ := other;
|}.

Definition headTree : gmap string Z :=
  {[ "README.md" := 1; "lib/a.js" := 2 ]}.

(** Index and working directory equal to [headTree]. *)
Definition clean : Repo :=
  {| dir := "/home/u/meta/";
     index := headTree;
     files := headTree;
     refs := [("HEAD", headTree)] |}.

(** A staged change to [lib/a.js], an unstaged one to [README.md] and an
    untracked [notes.txt]. *)
Definition dirty : Repo :=
  {| dir := "/home/u/meta/";
     index := <["lib/a.js" := 3]> headTree;
     files := {[ "README.md" := 4; "lib/a.js" := 3; "notes.txt" := 5 ]};
     refs := [("HEAD", headTree)] |}.

(** The open submodule [x] of the meta repository. *)
Definition sub : Repo :=
  {| dir := "/home/u/meta/x/"; index := ∅; files := ∅; refs := [] |}.

(** A diff with a conflict, a submodule pointer, the submodule
    configuration file and an untracked file. *)
Definition mixedDiff : Diff :=
  [ MkDiffDelta CONFLICTED (blob "both.txt") (blob "both.txt");
    MkDiffDelta MODIFIED
      {| path := "x"; mode := FILEMODE_COMMIT |}
      {| path := "x"; mode := FILEMODE_COMMIT |};
    MkDiffDelta MODIFIED (blob ".gitmodules") (blob ".gitmodules");
    MkDiffDelta DELETED (blob "old.txt") (absent "old.txt");
    MkDiffDelta UNTRACKED (absent "notes.txt") (blob "notes.txt") ].

(** [git meta diff HEAD -- lib] started from the meta repository. *)
Definition process : Process.t :=
  {| Process.argv := ["node"; "git-meta"; "diff"; "HEAD"; "--"; "lib"];
     Process.cwd := "/home/u/meta" |}.

(** The same command line with other launcher paths and directory. *)
Definition processElsewhere : Process.t :=
  {| Process.argv :=
       ["/usr/bin/node"; "/opt/git-meta"; "diff"; "HEAD"; "--"; "lib"];
     Process.cwd := "/tmp" |}.

(** [git meta diff HEAD] and [git meta diff -- HEAD]. *)
Definition processCommit : Process.t :=
  {| Process.argv := ["node"; "git-meta"; "diff"; "HEAD"];
     Process.cwd := "/home/u/meta" |}.
Definition processPath : Process.t :=
  {| Process.argv := ["node"; "git-meta"; "diff"; "--"; "HEAD"];
     Process.cwd := "/home/u/meta" |}.

(** [git meta diff nowhere HEAD]: the first name resolves to nothing. *)
Definition processSecondOnly : Process.t :=
  {| Process.argv := ["node"; "git-meta"; "diff"; "nowhere"; "HEAD"];
     Process.cwd := "/home/u/meta" |}.

(** Tree-ish names are looked up among the repository's refs; an unknown
    name resolves to nothing. *)
Fixpoint findRef (name : string) (l : list (string * gmap string Z))
    : option (gmap string Z) :=
  match l with
  | [] => None
  | (n, t) :: l' => if decide (n = name) then Some t else findRef name l'
  end.

Global Instance treeUtil : TreeUtil.Api Repo (gmap string Z) := {|
  TreeUtil.revparseTreeish repo treeish :=
    Ok (name ← treeish; findRef name (refs repo));
|}.

(** Targets whose second tree is set and whose first is not. *)
Definition secondOnly : @DiffUtil.Options (gmap string Z) :=
  {| diffOpts := new_DiffOptions;
     treeish1 := Some "nowhere";
     treeish2 := Some "HEAD";
     t1 := None;
     t2 := Some headTree;
     argOpts := [];
     argPaths := [] |}.

(** Targets with one path filter, which lies in submodule [y]. *)
Definition filterInY : @DiffUtil.Options (gmap string Z) :=
  {| diffOpts := new_DiffOptions;
     treeish1 := None;
     treeish2 := None;
     t1 := None;
     t2 := None;
     argOpts := [];
     argPaths := ["y/a"] |}.

(** Targets with one path filter, the entry [..cache] of submodule
    [x]. *)
Definition filterDotDot : @DiffUtil.Options (gmap string Z) :=
  {| diffOpts := new_DiffOptions;
     treeish1 := None;
     treeish2 := None;
     t1 := None;
     t2 := None;
     argOpts := [];
     argPaths := ["x/..cache"] |}.

(** The palette of [colors]: red opens with ESC[31m and closes with
    ESC[39m. *)
Definition esc : string := String (ascii_of_nat 27) "".
Definition red (s : string) : string :=
  esc +:+ "[31m" +:+ s +:+ esc +:+ "[39m".

(** Collaborators that know the commits [known] and merge as [answer]
    says. *)
Definition mergeBare (known : list string)
    (answer : string -> string -> MergeCommon.MODE -> MergeBare.MergeResult)
    : MergeBare.Api unit string := {|
  MergeBare.getCurrentRepo := tt;
  MergeBare.resolveCommitish _ name :=
    if bool_decide (name ∈ known) then Some name else None;
  MergeBare.getCommit _ id := id;
  MergeBare.merge _ ours theirs mode _ _ := answer ours theirs mode;
  MergeBare.colors_red := red;
|}.

(** Both commits are known and the merge engine reports success without
    a commit: nothing had to be merged. *)
Definition nothingToMerge : MergeBare.Api unit string :=
  mergeBare ["main"; "topic"]
    (fun _ _ _ =>
       {| MergeBare.metaCommit := None; MergeBare.errorMessage := None |}).

Definition mergeArgs (ours theirs : string) : MergeBare.Args :=
  {| MergeBare.no_ff := false;
     MergeBare.ourCommit := Some ours;
     MergeBare.theirCommit := Some theirs;
     MergeBare.message := "merge" |}.

End Sample.

(** ** [diff.js]: the [diff] command *)

Module DiffCmd.

(** The collaborators of the command.  [getSubmoduleChangesFromDiff]
    answers with an object keyed by submodule name; [changeNames] is the
    order in which [for ... in] walks its keys.  [getSubrepo] is the
    opener's method and may throw.  [stringify] stands for the
    [JSON.stringify] of the record logged at the end. *)
Class Api (Repository Tree Changes : Type) : Type := MkApi {
  getCurrentRepo : Repository;
  getSubmoduleChangesFromDiff : Diff -> bool -> Changes;
  changeNames : Changes -> list string;
  getSubrepo :
    Repository -> string -> Open.SUB_OPEN_OPTION -> result Repository;
  stringify : @DiffUtil.Options Tree -> Changes -> list string -> string;
}.

Section WithCollaborators.
Context {Repository Tree Index Changes : Type}.
Context {git : NodeGit.Api Repository Tree Index}.
Context {treeUtil : TreeUtil.Api Repository Tree}.
Context {shell : ChildProcess.Api}.
Context {env : Api Repository Tree Changes}.

(** One round of the loop. *)
Definition round (process : Process.t) (repo : Repository)
    (opts : @DiffUtil.Options Tree) (subName : string) : Co unit :=
  subRepo ← lift (getSubrepo repo subName Open.FORCE_OPEN);
  printDiff process repo subRepo opts.

(** A submodule whose round goes through: it can be opened, its command
    string is not empty, and the command exits with 0. *)
Definition passes (process : Process.t) (repo : Repository)
    (opts : @DiffUtil.Options Tree) (name : string) : Prop :=
  exists subRepo,
    getSubrepo repo name Open.FORCE_OPEN = Ok subRepo
    /\ subDiffCmdBuilder process repo subRepo opts ≠ ""
    /\ ChildProcess.exitCode (subDiffCmdBuilder process repo subRepo opts)
       = 0.

(** The loop over the changed submodules. *)
Fixpoint printDiffs (process : Process.t) (repo : Repository)
    (opts : @DiffUtil.Options Tree) (names : list string) : Co unit :=
  match names with
  | [] => mret tt
  | subName :: rest =>
      subRepo ← lift (getSubrepo repo subName Open.FORCE_OPEN);
      _ ← printDiff process repo subRepo opts;
      printDiffs process repo opts rest
  end.

(** What one round of the loop adds to the trace: the events of
    [printDiff] on the opened submodule, nothing if it cannot be opened. *)
Definition visit (process : Process.t) (repo : Repository)
    (opts : @DiffUtil.Options Tree) (name : string) : list event :=
  match getSubrepo repo name Open.FORCE_OPEN with
  | Ok subRepo => trace (printDiff process repo subRepo opts)
  | Throw _ => []
  end.

Definition executeableSubcommand (process : Process.t)
    (args : DiffUtil.Args) : Co unit :=
  let repo := getCurrentRepo in
  opts ← lift (getOptions process repo args);
  let metaDiff := getDiffWithOptions repo opts in
  let treeChanges := getSubmoduleChangesFromDiff metaDiff true in
  _ ← printDiffs process repo opts (changeNames treeChanges);
  emit (ConsoleLog (stringify opts treeChanges (Process.argv process))).

End WithCollaborators.

End DiffCmd.

(** ** Reading a trace *)

Module Trace.

(** The lines a run printed, and the commands it spawned, in order. *)
Definition printed (events : list event) : list string :=
  omap (fun ev => match ev with ConsoleLog line => Some line | _ => None end)
    events.

Definition spawned (events : list event) : list string :=
  omap (fun ev => match ev with Spawn command => Some command | _ => None end)
    events.

End Trace.

(** ** Path segments *)

Module Segment.

(** The string contains no separator. *)
Fixpoint slashFree (s : string) : bool :=
  match s with
  | EmptyString => true
  | String c s' => if decide (c = "/"%char) then false else slashFree s'
  end.

(** A segment as normalisation leaves it: not empty, not ["."], not
    [".."]. *)
Definition proper (seg : string) : Prop :=
  seg ≠ "" /\ seg ≠ "." /\ seg ≠ "..".

End Segment.

(** ** More of the sample repository *)

Module SampleCmd.

(** The open submodule [y]. *)
Definition subY : Sample.Repo :=
  {| Sample.dir := "/home/u/meta/y/";
     Sample.index := ∅;
     Sample.files := ∅;
     Sample.refs := [] |}.

(** Collaborators of the [diff] command: the changed submodules are
    [names]; only [x] and [y] can be opened. *)
Definition diffCmd (names : list string)
    : DiffCmd.Api Sample.Repo (gmap string Z) (list string) := {|
  DiffCmd.getCurrentRepo := Sample.dirty;
  DiffCmd.getSubmoduleChangesFromDiff _ _ := names;
  DiffCmd.changeNames changes := changes;
  DiffCmd.getSubrepo _ name _ :=
    if decide (name = "x") then Ok Sample.sub
    else if decide (name = "y") then Ok subY
    else Throw (UserError ("cannot open " +:+ name));
  DiffCmd.stringify _ _ _ := "{}";
|}.

(** A merge engine that reports a conflict, and one that answers with a
    new commit. *)
Definition conflicting : MergeBare.Api unit string :=
  Sample.mergeBare ["main"; "topic"]
    (fun _ _ _ =>
       {| MergeBare.metaCommit := None;
          MergeBare.errorMessage := Some "conflict in x" |}).

Definition merging : MergeBare.Api unit string :=
  Sample.mergeBare ["main"; "topic"]
    (fun _ _ _ =>
       {| MergeBare.metaCommit := Some "c0ffee";
          MergeBare.errorMessage := None |}).

(** A resolver that throws on a name it does not know. *)
Definition strictTreeUtil : TreeUtil.Api Sample.Repo (gmap string Z) := {|
  TreeUtil.revparseTreeish repo treeish :=
    match treeish with
    | None => Ok None
    | Some name =>
        match Sample.findRef name (Sample.refs repo) with
        | Some tree => Ok (Some tree)
        | None => Throw (UserError ("unknown revision " +:+ name))
        end
    end;
|}.

(** [git meta diff --stat HEAD -- lib x/a], and the command started
    through a launcher whose arguments do not contain the word [diff]. *)
Definition processFull : Process.t :=
  {| Process.argv :=
       ["node"; "git-meta"; "diff"; "--stat"; "HEAD"; "--"; "lib"; "x/a"];
     Process.cwd := "/home/u/meta" |}.

Definition processAlias : Process.t :=
  {| Process.argv := ["node"; "git-meta-d"; "--stat"; "HEAD"];
     Process.cwd := "/home/u/meta" |}.

(** What [getOptions] builds for [processFull], for [Sample.processCommit]
    and for [processAlias], each with the commit argument [HEAD]. *)
Definition fullOptions : @DiffUtil.Options (gmap string Z) :=
  {| diffOpts := new_DiffOptions;
     treeish1 := Some "HEAD";
     treeish2 := None;
     t1 := Some Sample.headTree;
     t2 := None;
     argOpts := ["--stat"];
     argPaths := ["lib"; "x/a"] |}.

Definition commitOptions : @DiffUtil.Options (gmap string Z) :=
  {| diffOpts := new_DiffOptions;
     treeish1 := Some "HEAD";
     treeish2 := None;
     t1 := Some Sample.headTree;
     t2 := None;
     argOpts := [];
     argPaths := [] |}.

Definition aliasOptions : @DiffUtil.Options (gmap string Z) :=
  {| diffOpts := new_DiffOptions;
     treeish1 := Some "HEAD";
     treeish2 := None;
     t1 := Some Sample.headTree;
     t2 := None;
     argOpts := ["git-meta-d"; "--stat"];
     argPaths := [] |}.

(** A diff whose second delta carries a status [readDiff] cannot convert,
    under the path of the submodule configuration file. *)
Definition ignoredDiff : Diff :=
  [ MkDiffDelta MODIFIED (Sample.blob "a") (Sample.blob "a");
    MkDiffDelta IGNORED (Sample.blob ".gitmodules") (Sample.blob ".gitmodules");
    MkDiffDelta ADDED (Sample.absent "b") (Sample.blob "b") ].

(** A file renamed, then removed and added again under the same path. *)
Definition repeatedDiff : Diff :=
  [ MkDiffDelta RENAMED (Sample.blob "old.c") (Sample.blob "new.c");
    MkDiffDelta DELETED (Sample.blob "f") (Sample.absent "f");
    MkDiffDelta ADDED (Sample.absent "f") (Sample.blob "f") ].

End SampleCmd.

(** * Properties *)

(** ** The result monad *)

Lemma bind_Ok_inv {A B : Type} (m : result A) (f : A -> result B) (b : B) :
  (a ← m; f a) = Ok b -> exists a, m = Ok a /\ f a = Ok b.
Proof.
  destruct m as [a | e]; simpl; intros H.
  - exists a. split; [reflexivity | exact H].
  - discriminate H.
Qed.

Ltac bind_inv H :=
  let a := fresh "a" in
  let Ha := fresh "Ha" in
  apply bind_Ok_inv in H; destruct H as (a & Ha & H).

(** ** Reading a diff *)

Lemma set_property_lookup {V : Type} (m : gmap string V) k v p s :
  set_property m k v !! p = Some s ->
  (p = k /\ s = v /\ k ≠ "__proto__") \/ m !! p = Some s.
Proof.
  unfold set_property. destruct (decide (k = "__proto__")) as [E | N].
  - intros H. right. exact H.
  - destruct (decide (k = p)) as [-> | Hkp].
    + rewrite lookup_insert_eq. intros [= <-]. left. auto.
    + rewrite lookup_insert_ne by exact Hkp. intros H. right. exact H.
Qed.

Lemma set_property_other {V : Type} (m : gmap string V) k v p :
  k ≠ p -> set_property m k v !! p = m !! p.
Proof.
  intros Hkp. unfold set_property.
  destruct (decide (k = "__proto__")); [reflexivity |].
  apply lookup_insert_ne. exact Hkp.
Qed.

Lemma readDelta_lookup acc delta acc' p s :
  readDelta acc delta = Ok acc' ->
  acc' !! p = Some s ->
  acc !! p = Some s \/ filesAs delta p s.
Proof.
  unfold readDelta.
  destruct (decide (CONFLICTED = status delta)) as [Hc | Hc].
  - intros [= <-] H. left. exact H.
  - intros H Hp. bind_inv H.
    destruct (decide (_ /\ _)) as [[Hmod Hmode] | Hskip].
    + injection H as <-.
      apply set_property_lookup in Hp as [(-> & -> & _) | Hp].
      * right. unfold filesAs. repeat split; auto.
      * left. exact Hp.
    + injection H as <-. left. exact Hp.
Qed.

Lemma readDeltas_lookup deltas : forall acc r p s,
  readDeltas acc deltas = Ok r ->
  r !! p = Some s ->
  acc !! p = Some s \/ exists delta, delta ∈ deltas /\ filesAs delta p s.
Proof.
  induction deltas as [| d ds IH]; intros acc r p s H Hp; simpl in H.
  - injection H as <-. left. exact Hp.
  - bind_inv H.
    destruct (IH _ _ _ _ H Hp) as [Hacc | (delta & Hin & Hf)].
    + destruct (readDelta_lookup _ _ _ _ _ Ha Hacc) as [Hold | Hf].
      * left. exact Hold.
      * right. exists d. split; [apply list_elem_of_here | exact Hf].
    + right. exists delta. split; [apply list_elem_of_further, Hin | exact Hf].
Qed.

Lemma readDiff_lookup diff r p s :
  readDiff diff = Ok r ->
  r !! p = Some s ->
  exists delta, delta ∈ diff /\ filesAs delta p s.
Proof.
  intros H Hp.
  destruct (readDeltas_lookup _ _ _ _ _ H Hp) as [Hempty | Hex].
  - rewrite lookup_empty in Hempty. discriminate Hempty.
  - exact Hex.
Qed.

Lemma readDeltas_app l1 : forall acc l2,
  readDeltas acc (l1 ++ l2) = (r ← readDeltas acc l1; readDeltas r l2).
Proof.
  induction l1 as [| d l1 IH]; intros acc l2; simpl.
  - reflexivity.
  - destruct (readDelta acc d) as [acc' | e]; simpl.
    + apply IH.
    + reflexivity.
Qed.

(** Deltas filed elsewhere leave the entry of [p] alone. *)
Lemma readDeltas_untouched deltas : forall acc r p,
  readDeltas acc deltas = Ok r ->
  (forall delta s, delta ∈ deltas ->
     convertDeltaFlag (status delta) = Ok s ->
     path (deltaFile s delta) ≠ p) ->
  r !! p = acc !! p.
Proof.
  induction deltas as [| d ds IH]; intros acc r p H Hfar; simpl in H.
  - injection H as <-. reflexivity.
  - bind_inv H.
    rewrite (IH _ _ p H).
    + unfold readDelta in Ha.
      destruct (decide (CONFLICTED = status d)).
      * injection Ha as <-. reflexivity.
      * bind_inv Ha.
        destruct (decide (_ /\ _)); injection Ha as <-; [| reflexivity].
        apply set_property_other.
        eapply Hfar; [apply list_elem_of_here | eassumption].
    + intros delta s Hin. apply Hfar. apply list_elem_of_further, Hin.
Qed.

(** A diff whose statuses are all readable is read to the end. *)
Lemma readDelta_total acc delta :
  readableStatus (status delta) = true ->
  exists acc', readDelta acc delta = Ok acc'.
Proof.
  unfold readDelta. intros Hr.
  destruct (decide (CONFLICTED = status delta)); [eauto |].
  destruct (status delta); try discriminate Hr; try congruence; simpl;
    destruct (decide (_ /\ _)); eauto.
Qed.

Lemma readDeltas_total deltas : forall acc,
  Forall (fun delta => readableStatus (status delta) = true) deltas ->
  exists r, readDeltas acc deltas = Ok r.
Proof.
  induction deltas as [| d ds IH]; intros acc Hall; simpl.
  - eauto.
  - inversion Hall as [| ? ? Hd Hds]; subst.
    destruct (readDelta_total acc d Hd) as [acc' ->]. simpl.
    apply IH, Hds.
Qed.

Lemma readDiff_total diff :
  Forall (fun delta => readableStatus (status delta) = true) diff ->
  exists r, readDiff diff = Ok r.
Proof. apply readDeltas_total. Qed.

(** Reading a diff is reading it without its CONFLICTED deltas. *)
Lemma readDeltas_skips_conflicts deltas : forall acc,
  readDeltas acc deltas
  = readDeltas acc (filter (fun delta => status delta ≠ CONFLICTED) deltas).
Proof.
  induction deltas as [| d ds IH]; intros acc; [reflexivity |].
  rewrite filter_cons.
  destruct (decide (status d ≠ CONFLICTED)) as [Hother | Hconflict]; simpl.
  - destruct (readDelta acc d); simpl; [apply IH | reflexivity].
  - unfold readDelta.
    destruct (decide (CONFLICTED = status d)) as [_ | Hother]; simpl.
    + apply IH.
    + exfalso. apply Hconflict. congruence.
Qed.

Lemma readDiff_nil : readDiff [] = Ok ∅.
Proof. reflexivity. Qed.





(** A map that holds a diff is the only one that does. *)
Lemma holds_unique m m' diff : holds m diff -> holds m' diff -> m = m'.
Proof.
  intros H H'. apply map_eq. intros p.
  destruct (m !! p) as [s |] eqn:E.
  - symmetry. apply H', H, E.
  - destruct (m' !! p) as [s' |] eqn:E'; [| reflexivity].
    apply H', H in E'. congruence.
Qed.

(** ** The status of a repository *)

Section RepoStatusProperties.
Context {Repository Tree Index : Type}.
Context {git : NodeGit.Api Repository Tree Index}.

Lemma getRepoStatus_lookup (repo : Repository) (tree : option Tree)
    paths ignoreIndex allUntracked st p s :
  getRepoStatus repo tree paths ignoreIndex allUntracked = Ok st ->
  staged st !! p = Some s \/ workdir st !! p = Some s ->
  exists diff delta,
    diff ∈ comparisons repo tree paths ignoreIndex allUntracked
    /\ delta ∈ diff /\ filesAs delta p s.
Proof.
  unfold getRepoStatus, comparisons. intros H Hkey.
  destruct ignoreIndex.
  - bind_inv H. injection H as <-. simpl in Hkey.
    destruct Hkey as [Hkey | Hkey].
    + rewrite lookup_empty in Hkey. discriminate Hkey.
    + destruct (readDiff_lookup _ _ _ _ Ha Hkey) as (delta & Hin & Hf).
      eexists _, delta. split; [apply list_elem_of_here | auto].
  - bind_inv H. rename a into w, Ha into Hw. bind_inv H.
    injection H as <-. simpl in Hkey.
    destruct Hkey as [Hkey | Hkey].
    + destruct (readDiff_lookup _ _ _ _ Ha Hkey) as (delta & Hin & Hf).
      eexists _, delta.
      split; [apply list_elem_of_further, list_elem_of_here | auto].
    + destruct (readDiff_lookup _ _ _ _ Hw Hkey) as (delta & Hin & Hf).
      eexists _, delta. split; [apply list_elem_of_here | auto].
Qed.

(** The flags are INCLUDE_UNTRACKED alone (the [undefined] operand adds
    nothing), with RECURSE_UNTRACKED_DIRS exactly when [allUntracked] is
    set; a pathspec is carried exactly when paths are given. *)
Lemma statusOptions_spec paths allUntracked :
  flags (statusOptions paths allUntracked) = (if allUntracked then 24 else 8)
  /\ Z.testbit (flags (statusOptions paths allUntracked)) 3 = true
  /\ Z.testbit (flags (statusOptions paths allUntracked)) 4 = allUntracked
  /\ ignoreSubmodules (statusOptions paths allUntracked) = 1
  /\ pathspec (statusOptions paths allUntracked)
     = match paths with [] => None | _ => Some paths end.
Proof. destruct paths, allUntracked; repeat split. Qed.

(** What a returned status is made of. *)
Lemma getRepoStatus_inv (repo : Repository) (tree : option Tree)
    paths ignoreIndex allUntracked st :
  getRepoStatus repo tree paths ignoreIndex allUntracked = Ok st ->
  if ignoreIndex then
    staged st = ∅
    /\ readDiff (treeToWorkdir repo tree (statusOptions paths allUntracked))
       = Ok (workdir st)
  else
    readDiff
      (indexToWorkdir repo (Some (repo_index repo))
         (statusOptions paths allUntracked))
    = Ok (workdir st)
    /\ readDiff
         (treeToIndex repo tree None (statusOptions paths allUntracked))
       = Ok (staged st).
Proof.
  unfold getRepoStatus. intros H. destruct ignoreIndex.
  - bind_inv H. injection H as <-. simpl. auto.
  - bind_inv H. rename Ha into Hw. bind_inv H. injection H as <-.
    simpl. auto.
Qed.



(** C7. A CONFLICTED delta is skipped whatever [ignoreIndex] and
    [allUntracked] are: every key of [staged] or [workdir] was filed by a
    delta of one of the comparisons whose status is not CONFLICTED, and
    each comparison is read as if its CONFLICTED deltas were not there. *)
Theorem status_keys_exclude_conflicts (repo : Repository)
    (tree : option Tree) paths ignoreIndex allUntracked st p s :
  getRepoStatus repo tree paths ignoreIndex allUntracked = Ok st ->
  staged st !! p = Some s \/ workdir st !! p = Some s ->
  (exists diff delta,
     diff ∈ comparisons repo tree paths ignoreIndex allUntracked
     /\ delta ∈ diff
     /\ status delta ≠ CONFLICTED
     /\ convertDeltaFlag (status delta) = Ok s
     /\ path (deltaFile s delta) = p)
  /\ Forall
       (fun diff =>
          readDiff diff
          = readDiff (filter (fun delta => status delta ≠ CONFLICTED) diff))
       (comparisons repo tree paths ignoreIndex allUntracked).
Proof.
  intros H Hkey. split.
  - destruct (getRepoStatus_lookup _ _ _ _ _ _ _ _ H Hkey)
      as (diff & delta & Hd & Hin & (Hc & Hs & Hp & _)).
    exists diff, delta. auto.
  - apply Forall_forall. intros diff _. apply readDeltas_skips_conflicts.
Qed.

End RepoStatusProperties.

(** C10. An UNTRACKED delta that [readDiff] files is reported as ADDED:
    [convertDeltaFlag] turns UNTRACKED into ADDED, and the entry of the
    delta's new path is ADDED in the map, provided the delta is not one of
    the excluded ones, its path is an assignable key and no later delta is
    filed under the same path. *)
Theorem untracked_is_reported_as_added
    (before after : list DiffDelta) (delta : DiffDelta) r :
  status delta = UNTRACKED ->
  readDiff (before ++ delta :: after)%list = Ok r ->
  path (newFile delta) ≠ SubmoduleConfigUtil.modulesFileName ->
  mode (newFile delta) ≠ FILEMODE_COMMIT ->
  path (newFile delta) ≠ "__proto__" ->
  (forall later s, later ∈ after ->
     convertDeltaFlag (status later) = Ok s ->
     path (deltaFile s later) ≠ path (newFile delta)) ->
  convertDeltaFlag (status delta) = Ok FS_ADDED
  /\ r !! path (newFile delta) = Some FS_ADDED.
Proof.
  intros Hst Hread Hmod Hmode Hproto Hlast.
  split; [rewrite Hst; reflexivity |].
  unfold readDiff in Hread. rewrite readDeltas_app in Hread.
  bind_inv Hread. simpl in Hread. bind_inv Hread.
  rewrite (readDeltas_untouched _ _ _ _ Hread Hlast).
  unfold readDelta in Ha0. rewrite Hst in Ha0.
  destruct (decide (CONFLICTED = UNTRACKED)) as [E | _]; [discriminate E |].
  simpl in Ha0. unfold deltaFile in Ha0. simpl in Ha0.
  destruct (decide (_ /\ _)) as [_ | Hno].
  - injection Ha0 as <-. unfold set_property.
    destruct (decide (path (newFile delta) = "__proto__")); [contradiction |].
    apply lookup_insert_eq.
  - exfalso. apply Hno. split; auto.
Qed.

(** ** A repository that matches the reference tree *)

Section CleanRepository.
Context {Repository Tree Index Content : Type}.
Context {git : NodeGit.Api Repository Tree Index}.

(** What a tree, an index and a working directory hold. *)
Variable treeContent : Tree -> Content.
Variable indexContent : Index -> Content.
Variable workdirContent : Repository -> Content.

(** The contract of the two primitives involved: comparing equal contents
    gives a diff without deltas. *)
Hypothesis indexToWorkdir_same : forall repo idx options,
  workdirContent repo = indexContent idx ->
  indexToWorkdir repo (Some idx) options = [].
Hypothesis treeToIndex_same : forall repo tree options,
  indexContent (repo_index repo) = treeContent tree ->
  treeToIndex repo (Some tree) None options = [].

(** C8. When the index and the working directory both hold exactly what
    the tree [T] holds, the status against [T] with no paths,
    [ignoreIndex] false and [allUntracked] false has an empty [staged]
    and an empty [workdir]. *)
Theorem status_of_matching_tree_is_empty (repo : Repository) (T : Tree) :
  indexContent (repo_index repo) = treeContent T ->
  workdirContent repo = treeContent T ->
  getRepoStatus repo (Some T) [] false false
  = Ok {| staged := ∅; workdir := ∅ |}.
Proof.
  intros Hindex Hworkdir. unfold getRepoStatus.
  rewrite indexToWorkdir_same by congruence.
  rewrite treeToIndex_same by exact Hindex.
  reflexivity.
Qed.

End CleanRepository.

(** ** The definitions at work on the sample repository *)

Lemma omap_all_None {A B : Type} (f : A -> option B) (l : list A) :
  (forall x, x ∈ l -> f x = None) -> omap f l = [].
Proof.
  induction l as [| x l IH]; intros Hnone; simpl.
  - reflexivity.
  - rewrite (Hnone x) by apply list_elem_of_here.
    apply IH. intros y Hy. apply Hnone, list_elem_of_further, Hy.
Qed.

Lemma Sample_compare_same fresh (m : gmap string Z) :
  Sample.compare fresh m m = [].
Proof.
  unfold Sample.compare.
  rewrite !omap_all_None; [reflexivity | |].
  - intros [p c] Hin. apply elem_of_map_to_list in Hin.
    unfold Sample.rightDelta. rewrite Hin. reflexivity.
  - intros [p c] Hin. apply elem_of_map_to_list in Hin.
    unfold Sample.leftDelta. rewrite Hin.
    destruct (decide (c = c)); [reflexivity | contradiction].
Qed.



Lemma status_keys_exclude_conflicts_witness :
  (exists diff delta,
     diff ∈ comparisons (git := Sample.scripted [] Sample.mixedDiff [])
              tt None [] false true
     /\ delta ∈ diff
     /\ status delta ≠ CONFLICTED
     /\ convertDeltaFlag (status delta) = Ok FS_REMOVED
     /\ path (deltaFile FS_REMOVED delta) = "old.txt")
  /\ Forall
       (fun diff =>
          readDiff diff
          = readDiff (filter (fun delta => status delta ≠ CONFLICTED) diff))
       (comparisons (git := Sample.scripted [] Sample.mixedDiff [])
          tt None [] false true).
Proof.
  apply (status_keys_exclude_conflicts
           (git := Sample.scripted [] Sample.mixedDiff [])
           tt None [] false true
           {| staged := ∅;
              workdir := {[ "old.txt" := FS_REMOVED;
                            "notes.txt" := FS_ADDED ]} |}
           "old.txt" FS_REMOVED).
  - vm_compute. reflexivity.
  - right. vm_compute. reflexivity.
Defined.

Lemma untracked_is_reported_as_added_witness :
  convertDeltaFlag UNTRACKED = Ok FS_ADDED
  /\ ({[ "old.txt" := FS_REMOVED; "notes.txt" := FS_ADDED ]}
        : gmap string FILESTATUS) !! "notes.txt" = Some FS_ADDED.
Proof.
  apply (untracked_is_reported_as_added
           (take 4 Sample.mixedDiff)
           []
           (MkDiffDelta UNTRACKED
              (Sample.absent "notes.txt") (Sample.blob "notes.txt"))
           {[ "old.txt" := FS_REMOVED; "notes.txt" := FS_ADDED ]}).
  - reflexivity.
  - vm_compute. reflexivity.
  - vm_compute. discriminate.
  - vm_compute. discriminate.
  - vm_compute. discriminate.
  - intros later s Hin. inversion Hin.
Defined.

Lemma status_of_matching_tree_is_empty_witness :
  getRepoStatus Sample.clean (Some Sample.headTree) [] false false
  = Ok {| staged := ∅; workdir := ∅ |}.
Proof.
  apply (status_of_matching_tree_is_empty
           (git := Sample.git)
           (fun tree : gmap string Z => tree)
           (fun idx : gmap string Z => idx)
           Sample.files).
  - intros repo idx options Hsame. simpl. rewrite Hsame.
    apply Sample_compare_same.
  - intros repo tree options Hsame. simpl. simpl in Hsame. rewrite Hsame.
    apply Sample_compare_same.
  - reflexivity.
  - reflexivity.
Defined.

(** ** Diff targets *)

Section DiffTargetProperties.
Context {Repository Tree Index : Type}.
Context {git : NodeGit.Api Repository Tree Index}.
Context {treeUtil : TreeUtil.Api Repository Tree}.

(** On any record whatever: without a first tree the index is compared
    with the working directory; with a first tree only, that tree is
    compared with the working directory and index; with both, the two
    trees are compared. *)
Lemma getDiffWithOptions_by_targets (repo : Repository)
    options treeish1 treeish2 argOpts argPaths (a b : Tree) :
  let targets first second :=
    MkOptions options treeish1 treeish2 first second argOpts argPaths in
  getDiffWithOptions repo (targets None None)
  = indexToWorkdir repo None options
  /\ getDiffWithOptions repo (targets None (Some b))
     = indexToWorkdir repo None options
  /\ getDiffWithOptions repo (targets (Some a) None)
     = treeToWorkdirWithIndex repo (Some a) None options
  /\ getDiffWithOptions repo (targets (Some a) (Some b))
     = treeToTree repo (Some a) (Some b) options.
Proof. repeat split. Qed.

(** C5. For every record [getOptions] builds with a resolver that answers
    [null] for a [null] tree-ish and never answers [null] for a name (an
    unresolvable name is an error): with no tree the diff compares the
    index with the working directory; with exactly one tree it compares
    that tree with the working directory and index; with both it compares
    the two trees. *)
Theorem getDiffWithOptions_by_resolved_trees (process : Process.t)
    (repo : Repository) (args : Args) (opts : Options) :
  (forall r, TreeUtil.revparseTreeish r None = Ok None) ->
  (forall r name, TreeUtil.revparseTreeish r (Some name) ≠ Ok None) ->
  getOptions process repo args = Ok opts ->
  (t1 opts = None -> t2 opts = None ->
   getDiffWithOptions repo opts = indexToWorkdir repo None (diffOpts opts))
  /\ (forall tree,
        (t1 opts = Some tree /\ t2 opts = None)
        \/ (t1 opts = None /\ t2 opts = Some tree) ->
        getDiffWithOptions repo opts
        = treeToWorkdirWithIndex repo (Some tree) None (diffOpts opts))
  /\ (forall a b, t1 opts = Some a -> t2 opts = Some b ->
        getDiffWithOptions repo opts
        = treeToTree repo (Some a) (Some b) (diffOpts opts)).
Proof.
  intros Hnull Hname Hopts.
  assert (Hinv : is_Some (t2 opts) -> is_Some (t1 opts)).
  { unfold getOptions in Hopts. cbv zeta in Hopts.
    destruct (selectTreeishes args _) as [ts1 ts2] eqn:Hsel.
    bind_inv Hopts. rename a into r1, Ha into H1.
    bind_inv Hopts. rename a into r2, Ha into H2.
    injection Hopts as <-. simpl. intros [b Hb]. subst r2.
    destruct ts2 as [n2 |]; [| rewrite Hnull in H2; discriminate H2].
    destruct ts1 as [n1 |].
    - destruct r1 as [a |]; [eauto |]. exfalso. exact (Hname _ _ H1).
    - exfalso. unfold selectTreeishes in Hsel.
      destruct (commits args) as [[| c1 more] |];
        try discriminate Hsel.
      destruct (negb (includes _ c1)); discriminate Hsel. }
  unfold getDiffWithOptions.
  split; [intros H1 _; rewrite H1; reflexivity |]. split.
  - intros tree [[H1 H2] | [H1 H2]]; [rewrite H1, H2; reflexivity |].
    exfalso. rewrite H1, H2 in Hinv.
    destruct Hinv as [? Hbad]; [eauto | discriminate Hbad].
  - intros a b H1 H2. rewrite H1, H2. reflexivity.
Qed.

(** C9, as the code has it.  The record depends on the ambient argument
    vector, and only through its two stretches: two processes whose
    vectors agree between ["diff"] and ["--"] and after ["--"] give the
    same record for the same repository and arguments, and the path
    filters of the record are the stretch after ["--"]. *)
Theorem getOptions_reads_process_argv
    (process process' : Process.t) (repo : Repository) (args : Args) :
  argvOptions (Process.argv process) = argvOptions (Process.argv process') ->
  argvPaths (Process.argv process) = argvPaths (Process.argv process') ->
  getOptions process repo args = getOptions process' repo args
  /\ forall opts, getOptions process repo args = Ok opts ->
       DiffUtil.argPaths opts = argvPaths (Process.argv process).
Proof.
  intros Hopts Hpaths.
  assert (Hcut : forall pr,
    getOptions pr repo args
    = let '(treeish1, treeish2) :=
        selectTreeishes args (argvPaths (Process.argv pr)) in
      t1 ← TreeUtil.revparseTreeish repo treeish1;
      t2 ← TreeUtil.revparseTreeish repo treeish2;
      Ok {| diffOpts := new_DiffOptions;
            treeish1 := treeish1;
            treeish2 := treeish2;
            t1 := t1;
            t2 := t2;
            argOpts :=
              filter (λ w, differs w treeish1 && differs w treeish2)
                (argvOptions (Process.argv pr));
            argPaths := argvPaths (Process.argv pr) |})
    by reflexivity.
  rewrite !Hcut, Hopts, Hpaths. split; [reflexivity |].
  intros opts H.
  destruct (selectTreeishes args _) as [ts1 ts2].
  bind_inv H. bind_inv H. injection H as <-. reflexivity.
Qed.

End DiffTargetProperties.

Lemma getOptions_reads_process_argv_witness :
  getOptions Sample.process Sample.clean {| commits := Some ["HEAD"] |}
  = getOptions Sample.processElsewhere Sample.clean
      {| commits := Some ["HEAD"] |}
  /\ forall opts,
       getOptions Sample.process Sample.clean {| commits := Some ["HEAD"] |}
       = Ok opts ->
       DiffUtil.argPaths opts = argvPaths (Process.argv Sample.process).
Proof.
  apply (getOptions_reads_process_argv
           Sample.process Sample.processElsewhere Sample.clean
           {| commits := Some ["HEAD"] |}).
  - vm_compute. reflexivity.
  - vm_compute. reflexivity.
Defined.

Lemma getDiffWithOptions_by_resolved_trees_witness :
  (t1 SampleCmd.commitOptions = None -> t2 SampleCmd.commitOptions = None ->
   getDiffWithOptions Sample.clean SampleCmd.commitOptions
   = indexToWorkdir Sample.clean None (diffOpts SampleCmd.commitOptions))
  /\ (forall tree,
        (t1 SampleCmd.commitOptions = Some tree
         /\ t2 SampleCmd.commitOptions = None)
        \/ (t1 SampleCmd.commitOptions = None
            /\ t2 SampleCmd.commitOptions = Some tree) ->
        getDiffWithOptions Sample.clean SampleCmd.commitOptions
        = treeToWorkdirWithIndex Sample.clean (Some tree) None
            (diffOpts SampleCmd.commitOptions))
  /\ (forall a b,
        t1 SampleCmd.commitOptions = Some a ->
        t2 SampleCmd.commitOptions = Some b ->
        getDiffWithOptions Sample.clean SampleCmd.commitOptions
        = treeToTree Sample.clean (Some a) (Some b)
            (diffOpts SampleCmd.commitOptions)).
Proof.
  apply (getDiffWithOptions_by_resolved_trees
           (treeUtil := SampleCmd.strictTreeUtil)
           Sample.processCommit Sample.clean
           {| commits := Some ["HEAD"] |} SampleCmd.commitOptions).
  - intros r. reflexivity.
  - intros r name. simpl.
    destruct (Sample.findRef name (Sample.refs r)); discriminate.
  - vm_compute. reflexivity.
Defined.

(** C9, as stated, fails: with the same arguments and repository, the
    record built under [diff HEAD] differs from the one built under
    [diff -- HEAD]. *)
Lemma getOptions_differs_with_process_argv :
  getOptions Sample.processCommit Sample.clean {| commits := Some ["HEAD"] |}
  ≠ getOptions Sample.processPath Sample.clean {| commits := Some ["HEAD"] |}.
Proof. vm_compute. intros H. discriminate H. Qed.

(** ** Path filters relative to a submodule *)

Lemma stripCommon_split from : forall to up down,
  Path.stripCommon from to = (up, down) ->
  exists common, from = (common ++ up)%list /\ to = (common ++ down)%list.
Proof.
  induction from as [| f from IH]; intros to up down H; simpl in H.
  - injection H as <- <-. exists []. split; reflexivity.
  - destruct to as [| t to].
    + injection H as <- <-. exists []. split; reflexivity.
    + destruct (decide (f = t)) as [-> | Hne].
      * destruct (IH _ _ _ H) as (common & -> & ->).
        exists (t :: common). split; reflexivity.
      * injection H as <- <-. exists []. split; reflexivity.
Qed.

Lemma stripCommon_extension from : forall rest,
  Path.stripCommon from (from ++ rest)%list = ([], rest).
Proof.
  induction from as [| f from IH]; intros rest; simpl.
  - destruct rest; reflexivity.
  - destruct (decide (f = f)); [apply IH | contradiction].
Qed.

Lemma prefix_dotdot_join (seg : string) (segs : list string) :
  String.prefix ".." (join "/" (seg :: segs)) = String.prefix ".." seg.
Proof.
  assert (Hcons : forall a s t, String a s +:+ t = String a (s +:+ t))
    by reflexivity.
  assert (Hstep : forall a s b t,
    String.prefix (String a s) (String b t)
    = if ascii_dec a b then String.prefix s t else false)
    by reflexivity.
  destruct segs as [| next segs]; [reflexivity |].
  unfold join. cbn [String.concat].
  destruct seg as [| a [| b seg]]; rewrite ?Hcons, ?Hstep.
  - reflexivity.
  - destruct (ascii_dec "." a); reflexivity.
  - destruct (ascii_dec "." a); [| reflexivity].
    rewrite ?Hstep.
    destruct (ascii_dec "." b); [destruct seg |]; reflexivity.
Qed.

Lemma join_nonempty (seg : string) (segs : list string) :
  seg ≠ "" -> join "/" (seg :: segs) ≠ "".
Proof.
  intros Hseg. unfold join. simpl.
  destruct segs; [exact Hseg |].
  destruct seg; [contradiction | discriminate].
Qed.

Lemma push_segment_nonempty stack seg :
  Forall (fun s => s ≠ "") stack ->
  Forall (fun s => s ≠ "") (Path.push_segment stack seg).
Proof.
  intros Hstack. unfold Path.push_segment.
  destruct (decide (seg = "" \/ seg = ".")) as [_ | Hseg]; [exact Hstack |].
  destruct (decide (seg = "..")).
  - destruct Hstack; [constructor | assumption].
  - constructor; [| exact Hstack]. intros ->. apply Hseg. left. reflexivity.
Qed.

Lemma normalizeSegments_nonempty segs :
  Forall (fun s => s ≠ "") (Path.normalizeSegments segs).
Proof.
  unfold Path.normalizeSegments. apply Forall_rev.
  generalize (Forall_nil_2 (fun s : string => s ≠ "")).
  generalize (@nil string) as stack.
  induction segs as [| seg segs IH]; intros stack Hstack; simpl.
  - exact Hstack.
  - apply IH, push_segment_nonempty, Hstack.
Qed.

(** A filter that does not resolve below the submodule directory is
    dropped. *)
Lemma relativePath_outside (cwd subPath p : string) :
  ¬ Path.resolve cwd subPath `prefix_of` Path.resolve cwd p ->
  relativePath cwd subPath p = None.
Proof.
  intros Hout. unfold relativePath, Path.relative.
  destruct (Path.stripCommon _ _) as [up down] eqn:Hstrip.
  apply stripCommon_split in Hstrip as (common & Hfrom & Hto).
  destruct up as [| u up].
  - exfalso. apply Hout. exists down.
    rewrite Hfrom, Hto, app_nil_r. reflexivity.
  - change (replicate (length (u :: up)) ".." ++ down)%list
      with (".." :: (replicate (length up) ".." ++ down))%list.
    rewrite prefix_dotdot_join. reflexivity.
Qed.

(** A filter that resolves to [rest] below the submodule directory is
    translated to [rest] (["."] for the directory itself), unless the first
    segment of [rest] begins with two dots, in which case it is dropped. *)
Lemma relativePath_inside (cwd subPath p : string) (rest : list string) :
  Path.resolve cwd p = (Path.resolve cwd subPath ++ rest)%list ->
  relativePath cwd subPath p
  = match rest with
    | [] => Some "."
    | seg :: _ =>
        if String.prefix ".." seg then None else Some (join "/" rest)
    end.
Proof.
  intros Hin. unfold relativePath, Path.relative.
  rewrite Hin, stripCommon_extension. simpl replicate. simpl app.
  destruct rest as [| seg rest]; [reflexivity |].
  rewrite prefix_dotdot_join.
  destruct (String.prefix ".." seg); [reflexivity |].
  destruct (decide (join "/" (seg :: rest) = "")) as [Hempty | _];
    [| reflexivity].
  exfalso. revert Hempty. apply join_nonempty.
  pose proof (normalizeSegments_nonempty
                (if Path.isAbsolute p then Path.split p
                 else (Path.split cwd ++ Path.split p)%list)) as Hclean.
  fold (Path.resolve cwd p) in Hclean. rewrite Hin in Hclean.
  apply Forall_app in Hclean as [_ Hclean].
  apply Forall_cons in Hclean as [Hseg _]. exact Hseg.
Qed.

(** ** The submodule diff command *)

Section SubmoduleDiffProperties.
Context {Repository Tree Index : Type}.
Context {git : NodeGit.Api Repository Tree Index}.
Context {shell : ChildProcess.Api}.

(** When path filters are given and none of them survives the
    translation, the command string is empty. *)
Lemma subDiffCmdBuilder_all_dropped (process : Process.t)
    (metaRepo subRepo : Repository) (opts : @Options Tree) :
  argPaths opts ≠ [] ->
  omap (relativePath (Process.cwd process)
          (Path.relative (Process.cwd process)
             (repo_workdir metaRepo) (repo_workdir subRepo)))
    (argPaths opts) = [] ->
  subDiffCmdBuilder process metaRepo subRepo opts = "".
Proof.
  intros Hne Hdropped. unfold subDiffCmdBuilder.
  destruct (decide (0 < length (argPaths opts))%nat) as [_ | Hlen].
  - cbv zeta. rewrite Hdropped. reflexivity.
  - destruct (argPaths opts); [contradiction | simpl in Hlen; lia].
Qed.

(** With filters that all lie outside the submodule directory, nothing
    is left of them. *)
Lemma filters_outside_all_dropped (cwd subPath : string)
    (filters : list string) :
  (forall p, p ∈ filters ->
     ¬ Path.resolve cwd subPath `prefix_of` Path.resolve cwd p) ->
  omap (relativePath cwd subPath) filters = [].
Proof.
  intros Hout. apply omap_all_None.
  intros p Hp. apply relativePath_outside, Hout, Hp.
Qed.

(** [printDiff] logs the command string; an empty one is then refused
    without a process being started, any other is spawned and the run
    succeeds or fails with the command's exit code. *)
Lemma printDiff_run (process : Process.t)
    (repo subRepo : Repository) (opts : @Options Tree) :
  let execStr := subDiffCmdBuilder process repo subRepo opts in
  let logged := ConsoleLog ("qqqq execStr = '" +:+ execStr +:+ "'") in
  printDiff process repo subRepo opts
  = if decide (execStr = "") then
      MkCo [logged] (Throw (TypeError ChildProcess.emptyFileMessage))
    else if decide (ChildProcess.exitCode execStr = 0) then
      MkCo [logged; Spawn execStr] (Ok tt)
    else
      MkCo [logged; Spawn execStr]
        (Throw
           (ChildProcessError
              ("`" +:+ execStr +:+ "` failed with code "
               +:+ pretty (ChildProcess.exitCode execStr))
              (ChildProcess.exitCode execStr))).
Proof.
  intros execStr logged. unfold printDiff, ChildProcess.spawn.
  fold execStr.
  destruct (decide (execStr = "")); [reflexivity |].
  unfold mbind, Co_bind; simpl.
  destruct (decide (ChildProcess.exitCode execStr = 0)); reflexivity.
Qed.

End SubmoduleDiffProperties.

(** C2, on the code.  For the submodule [x] and the single filter [y/a],
    which lies outside [x], the command string is empty, yet [printDiff]
    prints a line and then fails on the empty command instead of skipping
    the submodule.  The filter [x/..cache], which lies inside [x], is
    dropped.  And when the process runs in [lib] below the meta root, a
    filter outside the submodule [libs/x] is kept and one inside it is
    dropped, because the meta-relative submodule path is resolved against
    the current directory. *)
Theorem printDiff_of_skipped_submodule :
  subDiffCmdBuilder Sample.process Sample.clean Sample.sub Sample.filterInY
  = ""
  /\ (forall shell : ChildProcess.Api,
        printDiff (shell := shell)
          Sample.process Sample.clean Sample.sub Sample.filterInY
        = MkCo [ConsoleLog "qqqq execStr = ''"]
            (Throw (TypeError ChildProcess.emptyFileMessage)))
  /\ Path.relative "/home/u/meta" "x" "x/..cache" = "..cache"
  /\ relativePath "/home/u/meta" "x" "x/..cache" = None
  /\ subDiffCmdBuilder Sample.process Sample.clean Sample.sub
       Sample.filterDotDot
     = ""
  /\ Path.relative "/home/u/meta/lib" "/home/u/meta/" "/home/u/meta/libs/x/"
     = "libs/x"
  /\ relativePath "/home/u/meta/lib" "libs/x"
       "/home/u/meta/lib/libs/x/secret"
     = Some "secret"
  /\ relativePath "/home/u/meta/lib" "libs/x" "/home/u/meta/libs/x/b"
     = None.
Proof.
  split; [vm_compute; reflexivity |].
  split; [intros shell; reflexivity |].
  vm_compute. repeat split.
Qed.

(** ** The merge-bare command *)

Section MergeBareProperties.
Import MergeBare.
Context {Repository Commit : Type}.
Context {env : MergeBare.Api Repository Commit}.

(** C1, as the code has it.  The post-merge hook runs exactly once when
    the merge engine was reached and reported no error, with or without a
    commit in its answer, and not at all otherwise; the run succeeds in
    the first case and fails in the second. *)
Theorem post_merge_hook_follows_success (args : Args) :
  match mergeOutcome args with
  | Some answer =>
      match errorMessage answer with
      | None =>
          hookRuns (executeableSubcommand args) = 1%nat
          /\ outcome (executeableSubcommand args) = Ok tt
      | Some msg =>
          hookRuns (executeableSubcommand args) = 0%nat
          /\ outcome (executeableSubcommand args) = Throw (UserError msg)
      end
  | None =>
      hookRuns (executeableSubcommand args) = 0%nat
      /\ mergeCalls (executeableSubcommand args) = 0%nat
      /\ exists msg,
           outcome (executeableSubcommand args) = Throw (UserError msg)
  end.
Proof.
  unfold mergeOutcome, executeableSubcommand.
  destruct (ourCommit args) as [ours |]; simpl;
    [| destruct (theirCommit args); simpl; eauto].
  destruct (theirCommit args) as [theirs |]; simpl; [| eauto].
  destruct (resolveCommitish getCurrentRepo ours) as [ourId |]; simpl;
    [| eauto].
  destruct (resolveCommitish getCurrentRepo theirs) as [theirId |]; simpl;
    [| eauto].
  unfold mbind, Co_bind; simpl.
  destruct (errorMessage (merge _ _ _ _ _ _)) as [msg |]; simpl.
  - split; reflexivity.
  - destruct (metaCommit (merge _ _ _ _ _ _)); simpl; split; reflexivity.
Qed.

(** C6. When both names are given and one of them does not resolve, the
    command throws the user error "Could not resolve <name> to a commit."
    for the first such name, shown through [colors.red]; it has done
    nothing before: no merge call, no hook, no output. *)
Theorem unresolved_commit_is_user_error (args : Args) (ours theirs : string) :
  ourCommit args = Some ours ->
  theirCommit args = Some theirs ->
  resolveCommitish getCurrentRepo ours = None
  \/ resolveCommitish getCurrentRepo theirs = None ->
  exists name,
    (name = ours \/ name = theirs)
    /\ resolveCommitish getCurrentRepo name = None
    /\ executeableSubcommand args
       = MkCo []
           (Throw (UserError
              ("Could not resolve " +:+ colors_red name
               +:+ " to a commit.")))
    /\ mergeCalls (executeableSubcommand args) = 0%nat
    /\ hookRuns (executeableSubcommand args) = 0%nat.
Proof.
  intros Hours Htheirs Hnone. unfold executeableSubcommand.
  rewrite Hours, Htheirs.
  destruct (resolveCommitish getCurrentRepo ours) as [ourId |] eqn:Ho.
  - destruct Hnone as [Hnone | Hnone]; [discriminate Hnone |].
    rewrite Hnone. exists theirs. repeat split; auto.
  - exists ours. repeat split; auto.
Qed.

End MergeBareProperties.

Lemma unresolved_commit_is_user_error_witness :
  exists name,
    (name = "main" \/ name = "gone")
    /\ MergeBare.resolveCommitish (Api := Sample.nothingToMerge)
         (MergeBare.getCurrentRepo (Api := Sample.nothingToMerge)) name
       = None
    /\ MergeBare.executeableSubcommand (env := Sample.nothingToMerge)
         (Sample.mergeArgs "main" "gone")
       = MkCo []
           (Throw (UserError
              ("Could not resolve " +:+ Sample.red name +:+ " to a commit.")))
    /\ MergeBare.mergeCalls
         (MergeBare.executeableSubcommand (env := Sample.nothingToMerge)
            (Sample.mergeArgs "main" "gone")) = 0%nat
    /\ MergeBare.hookRuns
         (MergeBare.executeableSubcommand (env := Sample.nothingToMerge)
            (Sample.mergeArgs "main" "gone")) = 0%nat.
Proof.
  apply (unresolved_commit_is_user_error (env := Sample.nothingToMerge)
           (Sample.mergeArgs "main" "gone") "main" "gone").
  - reflexivity.
  - reflexivity.
  - right. vm_compute. reflexivity.
Defined.

(** C1, as stated, fails: with both commits resolved and a merge that
    succeeds without producing a commit, the hook still runs once. *)
Lemma post_merge_hook_without_new_commit :
  MergeBare.mergeOutcome (env := Sample.nothingToMerge)
    (Sample.mergeArgs "main" "topic")
  = Some {| MergeBare.metaCommit := None; MergeBare.errorMessage := None |}
  /\ MergeBare.executeableSubcommand (env := Sample.nothingToMerge)
       (Sample.mergeArgs "main" "topic")
     = MkCo
         [ MergeCall "main" "topic" MergeCommon.NORMAL Open.FORCE_BARE
             "merge";
           ExecHook "post-merge" ["0"] ]
         (Ok tt)
  /\ MergeBare.hookRuns
       (MergeBare.executeableSubcommand (env := Sample.nothingToMerge)
          (Sample.mergeArgs "main" "topic")) = 1%nat.
Proof. vm_compute. repeat split. Qed.

(** * Further properties *)

(** ** Converting and reading deltas *)

(** X1. Two flags are converted to the same file status only when they are
    the same flag, or when both are among ADDED and UNTRACKED, which are
    both reported as ADDED. *)
Theorem convertDeltaFlag_collisions (a b : DELTA) (s : FILESTATUS) :
  convertDeltaFlag a = Ok s ->
  convertDeltaFlag b = Ok s ->
  a = b
  \/ (s = FS_ADDED
      /\ (a = ADDED \/ a = UNTRACKED) /\ (b = ADDED \/ b = UNTRACKED)).
Proof.
  destruct a, b; simpl; intros Ha Hb; try discriminate Ha;
    try discriminate Hb; try (left; reflexivity);
    try (rewrite <- Ha in Hb; discriminate Hb);
    right; injection Ha as <-; auto.
Qed.

Lemma convertDeltaFlag_collisions_witness :
  ADDED = UNTRACKED
  \/ (FS_ADDED = FS_ADDED
      /\ (ADDED = ADDED \/ ADDED = UNTRACKED)
      /\ (UNTRACKED = ADDED \/ UNTRACKED = UNTRACKED)).
Proof.
  apply (convertDeltaFlag_collisions ADDED UNTRACKED FS_ADDED);
    reflexivity.
Defined.

Lemma readDelta_Ok_readable acc delta acc' :
  readDelta acc delta = Ok acc' -> readableStatus (status delta) = true.
Proof.
  unfold readDelta.
  destruct (decide (CONFLICTED = status delta)) as [<- | _];
    [reflexivity |].
  intros H. bind_inv H. destruct (status delta); try discriminate Ha;
    reflexivity.
Qed.

Lemma readDeltas_Ok_readable deltas : forall acc r,
  readDeltas acc deltas = Ok r ->
  Forall (fun delta => readableStatus (status delta) = true) deltas.
Proof.
  induction deltas as [| d ds IH]; intros acc r H; simpl in H.
  - constructor.
  - bind_inv H. constructor.
    + eapply readDelta_Ok_readable, Ha.
    + eapply IH, H.
Qed.

(** X2. [readDiff] throws at the first delta whose status is neither
    CONFLICTED nor convertible, with an assertion error that carries the
    number of that status; whether the delta would have been excluded as
    the submodule configuration file or a submodule pointer plays no part,
    and nothing after it is read. *)
Theorem readDiff_throws_at_first_unreadable
    (before after : list DiffDelta) (delta : DiffDelta) :
  Forall (fun d => readableStatus (status d) = true) before ->
  readableStatus (status delta) = false ->
  readDiff (before ++ delta :: after)%list
  = Throw (AssertionError
             ("Unrecognized DELTA type: "
              +:+ pretty (DELTA_value (status delta)) +:+ ".")).
Proof.
  intros Hbefore Hdelta. unfold readDiff. rewrite readDeltas_app.
  destruct (readDeltas_total before ∅ Hbefore) as [r ->]. simpl.
  unfold readDelta.
  destruct (decide (CONFLICTED = status delta)) as [Hc | _].
  - rewrite <- Hc in Hdelta. discriminate Hdelta.
  - destruct (status delta); try discriminate Hdelta; reflexivity.
Qed.

Lemma readDiff_throws_at_first_unreadable_witness :
  readDiff SampleCmd.ignoredDiff
  = Throw (AssertionError "Unrecognized DELTA type: 6.").
Proof.
  apply (readDiff_throws_at_first_unreadable
           [MkDiffDelta MODIFIED (Sample.blob "a") (Sample.blob "a")]
           [MkDiffDelta ADDED (Sample.absent "b") (Sample.blob "b")]
           (MkDiffDelta IGNORED
              (Sample.blob ".gitmodules") (Sample.blob ".gitmodules"))).
  - repeat constructor.
  - reflexivity.
Defined.

Lemma readDelta_files acc delta p s :
  filesAs delta p s -> readDelta acc delta = Ok (set_property acc p s).
Proof.
  intros (Hc & Hs & Hp & Hmod & Hmode). unfold readDelta.
  destruct (decide (CONFLICTED = status delta)) as [E | _];
    [symmetry in E; contradiction |].
  rewrite Hs. simpl. rewrite Hp.
  destruct (decide (_ /\ _)) as [_ | Hno]; [reflexivity |].
  exfalso. apply Hno. split; auto.
Qed.

Lemma readDelta_keeps_keys acc delta acc' p :
  readDelta acc delta = Ok acc' -> is_Some (acc !! p) -> is_Some (acc' !! p).
Proof.
  unfold readDelta. intros H Hkey.
  destruct (decide (CONFLICTED = status delta)).
  - injection H as <-. exact Hkey.
  - bind_inv H. destruct (decide (_ /\ _)); injection H as <-;
      [| exact Hkey].
    unfold set_property. destruct (decide (_ = "__proto__")); [exact Hkey |].
    destruct (decide (path (deltaFile a delta) = p)) as [-> | Hne].
    + rewrite lookup_insert_eq. eauto.
    + rewrite lookup_insert_ne by exact Hne. exact Hkey.
Qed.

Lemma readDeltas_keeps_keys deltas : forall acc r p,
  readDeltas acc deltas = Ok r -> is_Some (acc !! p) -> is_Some (r !! p).
Proof.
  induction deltas as [| d ds IH]; intros acc r p H Hkey; simpl in H.
  - injection H as <-. exact Hkey.
  - bind_inv H. eapply IH; [exact H |].
    eapply readDelta_keeps_keys; eassumption.
Qed.

Lemma readDeltas_no_proto deltas : forall acc r,
  readDeltas acc deltas = Ok r ->
  acc !! "__proto__" = None -> r !! "__proto__" = None.
Proof.
  induction deltas as [| d ds IH]; intros acc r H Hnone; simpl in H.
  - injection H as <-. exact Hnone.
  - bind_inv H. eapply IH; [exact H |].
    unfold readDelta in Ha. destruct (decide (CONFLICTED = status d)).
    + injection Ha as <-. exact Hnone.
    + bind_inv Ha. destruct (decide (_ /\ _)); injection Ha as <-;
        [| exact Hnone].
      unfold set_property.
      destruct (decide (path (deltaFile a0 d) = "__proto__")) as [| Hne];
        [exact Hnone |].
      rewrite lookup_insert_ne by exact Hne. exact Hnone.
Qed.

(** X3. The keys of the map [readDiff] returns are exactly the paths some
    delta of the diff is filed under, the key ["__proto__"] apart, which is
    never among them. *)
Theorem readDiff_keys (diff : Diff) (r : gmap string FILESTATUS)
    (p : string) :
  readDiff diff = Ok r ->
  is_Some (r !! p)
  <-> p ≠ "__proto__"
      /\ exists delta s, delta ∈ diff /\ filesAs delta p s.
Proof.
  intros Hread. split.
  - intros [s Hs]. split.
    + intros ->.
      rewrite (readDeltas_no_proto _ _ _ Hread (lookup_empty _)) in Hs.
      discriminate Hs.
    + destruct (readDiff_lookup _ _ _ _ Hread Hs) as (delta & Hin & Hf).
      eauto.
  - intros (Hproto & delta & s & Hin & Hf).
    apply list_elem_of_split in Hin as (before & after & ->).
    unfold readDiff in Hread. rewrite readDeltas_app in Hread.
    bind_inv Hread. simpl in Hread. bind_inv Hread.
    eapply readDeltas_keeps_keys; [exact Hread |].
    rewrite (readDelta_files a delta p s Hf) in Ha0. injection Ha0 as <-.
    unfold set_property.
    destruct (decide (p = "__proto__")); [contradiction |].
    rewrite lookup_insert_eq. eauto.
Qed.

Lemma readDiff_keys_witness :
  is_Some
    (({[ "new.c" := FS_RENAMED; "f" := FS_ADDED ]} : gmap string FILESTATUS)
       !! "old.c")
  <-> "old.c" ≠ "__proto__"
      /\ exists delta s,
           delta ∈ SampleCmd.repeatedDiff /\ filesAs delta "old.c" s.
Proof.
  apply (readDiff_keys SampleCmd.repeatedDiff
           {[ "new.c" := FS_RENAMED; "f" := FS_ADDED ]} "old.c").
  vm_compute. reflexivity.
Defined.

(** X4. When several deltas are filed under one path, the last of them
    decides: the entry of a path is the status of the last delta filed
    under it. *)
Theorem readDiff_last_delta_wins
    (before after : list DiffDelta) (delta : DiffDelta)
    (r : gmap string FILESTATUS) (p : string) (s : FILESTATUS) :
  readDiff (before ++ delta :: after)%list = Ok r ->
  filesAs delta p s ->
  p ≠ "__proto__" ->
  (forall later s', later ∈ after ->
     convertDeltaFlag (status later) = Ok s' ->
     path (deltaFile s' later) ≠ p) ->
  r !! p = Some s.
Proof.
  intros Hread Hf Hproto Hlast.
  unfold readDiff in Hread. rewrite readDeltas_app in Hread.
  bind_inv Hread. simpl in Hread. bind_inv Hread.
  rewrite (readDeltas_untouched _ _ _ _ Hread Hlast).
  rewrite (readDelta_files a delta p s Hf) in Ha0. injection Ha0 as <-.
  unfold set_property. destruct (decide (p = "__proto__")); [contradiction |].
  apply lookup_insert_eq.
Qed.

Lemma readDiff_last_delta_wins_witness :
  ({[ "new.c" := FS_RENAMED; "f" := FS_ADDED ]} : gmap string FILESTATUS)
    !! "f" = Some FS_ADDED.
Proof.
  apply (readDiff_last_delta_wins
           (take 2 SampleCmd.repeatedDiff) []
           (MkDiffDelta ADDED (Sample.absent "f") (Sample.blob "f"))
           {[ "new.c" := FS_RENAMED; "f" := FS_ADDED ]} "f" FS_ADDED).
  - vm_compute. reflexivity.
  - unfold filesAs. vm_compute. repeat split; discriminate.
  - discriminate.
  - intros later s' Hin. inversion Hin.
Defined.

Section RepoStatusFailure.
Context {Repository Tree Index : Type}.
Context {git : NodeGit.Api Repository Tree Index}.

(** X5. [getRepoStatus] returns a status exactly when every comparison it
    reads carries readable statuses only; otherwise it throws. *)
Theorem getRepoStatus_returns_iff_readable (repo : Repository)
    (tree : option Tree) paths ignoreIndex allUntracked :
  (exists st, getRepoStatus repo tree paths ignoreIndex allUntracked = Ok st)
  <-> Forall (Forall (fun delta => readableStatus (status delta) = true))
        (comparisons repo tree paths ignoreIndex allUntracked).
Proof.
  unfold getRepoStatus, comparisons. split.
  - intros [st H]. destruct ignoreIndex.
    + bind_inv H. repeat constructor.
      eapply readDeltas_Ok_readable, Ha.
    + bind_inv H. rename Ha into Hw. bind_inv H. repeat constructor.
      * eapply readDeltas_Ok_readable, Hw.
      * eapply readDeltas_Ok_readable, Ha.
  - intros Hall. destruct ignoreIndex.
    + apply Forall_cons in Hall as [Hw _].
      destruct (readDiff_total _ Hw) as [w ->]. simpl. eauto.
    + apply Forall_cons in Hall as [Hw Hall].
      apply Forall_cons in Hall as [Hs _].
      destruct (readDiff_total _ Hw) as [w ->].
      destruct (readDiff_total _ Hs) as [i Hi]. simpl. rewrite Hi. simpl.
      eauto.
Qed.

End RepoStatusFailure.

Lemma getRepoStatus_returns_iff_readable_witness :
  exists st,
    getRepoStatus (git := Sample.scripted [] Sample.mixedDiff [])
      tt None [] false false = Ok st.
Proof.
  apply (proj2 (getRepoStatus_returns_iff_readable
                  (git := Sample.scripted [] Sample.mixedDiff [])
                  tt None [] false false)).
  vm_compute. repeat constructor.
Defined.

(** ** Cutting up the argument vector *)

Lemma indexOf_first (head rest : list string) (x : string) :
  x ∉ head ->
  indexOf (head ++ x :: rest)%list x = Z.of_nat (length head).
Proof.
  induction head as [| y head IH]; intros Hnot; simpl.
  - destruct (decide (x = x)); [reflexivity | contradiction].
  - apply not_elem_of_cons in Hnot as [Hne Hnot].
    destruct (decide (y = x)) as [-> | _]; [contradiction |].
    rewrite (IH Hnot).
    destruct (decide (Z.of_nat (length head) = -1)); lia.
Qed.

Lemma indexOf_absent (l : list string) (x : string) :
  x ∉ l -> indexOf l x = -1.
Proof.
  induction l as [| y l IH]; intros Hnot; simpl.
  - reflexivity.
  - apply not_elem_of_cons in Hnot as [Hne Hnot].
    destruct (decide (y = x)) as [-> | _]; [contradiction |].
    rewrite (IH Hnot). reflexivity.
Qed.

Lemma slice_middle {A : Type} (a b c : list A) :
  slice (a ++ b ++ c) (Z.of_nat (length a))
    (Z.of_nat (length a + length b))
  = b.
Proof.
  unfold slice, clamp_index. rewrite !length_app.
  destruct (decide (Z.of_nat (length a) < 0)); [lia |].
  destruct (decide (Z.of_nat (length a + length b) < 0)); [lia |].
  rewrite !Z.min_l by lia.
  replace (Z.to_nat (Z.of_nat (length a + length b) - Z.of_nat (length a)))
    with (length b) by lia.
  rewrite Nat2Z.id, drop_app_length, take_app_length. reflexivity.
Qed.

Lemma slice_past_end {A : Type} (l : list A) :
  slice l (Z.of_nat (length l) + 1) (Z.of_nat (length l)) = [].
Proof.
  unfold slice, clamp_index.
  destruct (decide (Z.of_nat (length l) + 1 < 0)); [lia |].
  destruct (decide (Z.of_nat (length l) < 0)); [lia |].
  rewrite (Z.min_r (Z.of_nat (length l) + 1)) by lia.
  rewrite Z.min_id.
  replace (Z.to_nat (Z.of_nat (length l) - Z.of_nat (length l)))
    with 0%nat by lia.
  reflexivity.
Qed.

Lemma slice_tail {A : Type} (l : list A) :
  slice l 1 (Z.of_nat (length l)) = tail l.
Proof.
  destruct l as [| first rest]; [reflexivity |]. simpl tail.
  replace (Z.of_nat (length (first :: rest)))
    with (Z.of_nat (length [first] + length rest)) by (simpl; lia).
  replace (first :: rest) with ([first] ++ rest ++ [])%list
    by (rewrite app_nil_r; reflexivity).
  apply (slice_middle [first] rest []).
Qed.

(** The stretches of a vector of the shape
    [head ++ "diff" :: options ++ "--" :: paths]. *)
Lemma argv_with_separator (head options paths : list string) :
  "diff" ∉ head -> "--" ∉ head -> "--" ∉ options ->
  argvOptions (head ++ "diff" :: options ++ "--" :: paths) = options
  /\ argvPaths (head ++ "diff" :: options ++ "--" :: paths) = paths.
Proof.
  intros Hdiff Hsep Hsep'.
  assert (Hi0 : indexOf (head ++ "diff" :: options ++ "--" :: paths) "diff"
                = Z.of_nat (length head))
    by (apply indexOf_first, Hdiff).
  assert (Hi1 : indexOf (head ++ "diff" :: options ++ "--" :: paths) "--"
                = Z.of_nat (length (head ++ ["diff"]) + length options)).
  { replace (head ++ "diff" :: options ++ "--" :: paths)%list
      with ((head ++ "diff" :: options) ++ "--" :: paths)%list
      by (rewrite <- app_assoc; reflexivity).
    rewrite indexOf_first.
    - rewrite !length_app. simpl. f_equal. lia.
    - rewrite elem_of_app, elem_of_cons. intros [H | [H | H]];
        [contradiction | discriminate H | contradiction]. }
  unfold argvOptions, argvPaths. rewrite Hi0, Hi1.
  destruct (decide (Z.of_nat (length head) = -1)); [lia |].
  destruct (decide (Z.of_nat (length (head ++ ["diff"]) + length options)
                    = -1)); [lia |].
  split.
  - replace (head ++ "diff" :: options ++ "--" :: paths)%list
      with ((head ++ ["diff"]) ++ options ++ "--" :: paths)%list
      by (rewrite <- app_assoc; reflexivity).
    replace (Z.of_nat (length head) + 1)
      with (Z.of_nat (length (head ++ ["diff"])))
      by (rewrite length_app; simpl; lia).
    apply slice_middle.
  - replace (head ++ "diff" :: options ++ "--" :: paths)%list
      with ((head ++ "diff" :: options ++ ["--"]) ++ paths ++ [])%list
      by (rewrite app_nil_r, <- !app_assoc; simpl;
          rewrite <- app_assoc; reflexivity).
    replace (Z.of_nat (length (head ++ ["diff"]) + length options) + 1)
      with (Z.of_nat (length (head ++ "diff" :: options ++ ["--"])))
      by (rewrite !length_app; simpl; rewrite length_app; simpl; lia).
    replace (Z.of_nat
               (length ((head ++ "diff" :: options ++ ["--"])
                        ++ paths ++ [])))
      with (Z.of_nat (length (head ++ "diff" :: options ++ ["--"])
                      + length paths))
      by (rewrite !length_app; simpl; rewrite !length_app; simpl; lia).
    apply slice_middle.
Qed.

(** Without a separator nothing is a path. *)
Lemma argvPaths_without_separator (argv : list string) :
  "--" ∉ argv -> argvPaths argv = [].
Proof.
  intros Hsep. unfold argvPaths. rewrite (indexOf_absent _ _ Hsep).
  destruct (decide (-1 = -1)); [| contradiction].
  apply slice_past_end.
Qed.

(** ** Resolving the diff targets *)

Section GetOptionsProperties.
Context {Repository Tree Index : Type}.
Context {git : NodeGit.Api Repository Tree Index}.
Context {treeUtil : TreeUtil.Api Repository Tree}.

(** [getOptions] in terms of the two stretches of the vector. *)
Lemma getOptions_cut (process : Process.t) (repo : Repository)
    (args : Args) :
  getOptions process repo args
  = let '(treeish1, treeish2) :=
      selectTreeishes args (argvPaths (Process.argv process)) in
    t1 ← TreeUtil.revparseTreeish repo treeish1;
    t2 ← TreeUtil.revparseTreeish repo treeish2;
    Ok {| diffOpts := new_DiffOptions;
          treeish1 := treeish1;
          treeish2 := treeish2;
          t1 := t1;
          t2 := t2;
          argOpts :=
            filter (λ w, differs w treeish1 && differs w treeish2)
              (argvOptions (Process.argv process));
          argPaths := argvPaths (Process.argv process) |}.
Proof. reflexivity. Qed.

Lemma getOptions_Ok_inv (process : Process.t) (repo : Repository)
    (args : Args) (opts : Options) :
  getOptions process repo args = Ok opts ->
  selectTreeishes args (argvPaths (Process.argv process))
  = (treeish1 opts, treeish2 opts)
  /\ TreeUtil.revparseTreeish repo (treeish1 opts) = Ok (t1 opts)
  /\ TreeUtil.revparseTreeish repo (treeish2 opts) = Ok (t2 opts)
  /\ argOpts opts
     = filter (λ w, differs w (treeish1 opts) && differs w (treeish2 opts))
         (argvOptions (Process.argv process))
  /\ argPaths opts = argvPaths (Process.argv process).
Proof.
  rewrite getOptions_cut. intros H.
  destruct (selectTreeishes args _) as [ts1 ts2].
  bind_inv H. bind_inv H. injection H as <-. simpl. auto.
Qed.

Lemma selectTreeishes_spec (args : Args) (paths : list string) ts1 ts2 :
  selectTreeishes args paths = (ts1, ts2) ->
  (is_Some ts2 -> is_Some ts1)
  /\ (forall t, ts1 = Some t ->
        (t ∉ paths) /\ (default [] (commits args)) !! 0%nat = Some t)
  /\ (forall t, ts2 = Some t ->
        (t ∉ paths) /\ (default [] (commits args)) !! 1%nat = Some t).
Proof.
  unfold selectTreeishes, includes.
  destruct (commits args) as [[| c1 more] |]; simpl.
  - intros [= <- <-]. repeat split; intros; try discriminate.
    destruct H as [? H]; discriminate H.
  - destruct (bool_decide (c1 ∈ paths)) eqn:H1; simpl.
    + intros [= <- <-]. repeat split; intros; try discriminate.
      destruct H as [? H]; discriminate H.
    + apply bool_decide_eq_false in H1.
      destruct more as [| c2 more]; simpl.
      * intros [= <- <-]. repeat split; intros; try discriminate; eauto;
          congruence.
      * destruct (bool_decide (c2 ∈ paths)) eqn:H2; simpl.
        -- intros [= <- <-]. repeat split; intros; try discriminate; eauto;
             congruence.
        -- apply bool_decide_eq_false in H2.
           intros [= <- <-]. repeat split; intros; eauto; congruence.
  - intros [= <- <-]. repeat split; intros; try discriminate.
    destruct H as [? H]; discriminate H.
Qed.

(** X6. What a returned record holds: a second tree-ish name only beside a
    first one; names that are the first and second commit argument, occur
    neither among the path filters nor among the forwarded options, and
    resolve to the record's trees. *)
Theorem getOptions_invariants (process : Process.t) (repo : Repository)
    (args : Args) (opts : Options) :
  getOptions process repo args = Ok opts ->
  (is_Some (treeish2 opts) -> is_Some (treeish1 opts))
  /\ (forall t, treeish1 opts = Some t ->
        (default [] (commits args)) !! 0%nat = Some t
        /\ (t ∉ argPaths opts) /\ (t ∉ argOpts opts))
  /\ (forall t, treeish2 opts = Some t ->
        (default [] (commits args)) !! 1%nat = Some t
        /\ (t ∉ argPaths opts) /\ (t ∉ argOpts opts))
  /\ TreeUtil.revparseTreeish repo (treeish1 opts) = Ok (t1 opts)
  /\ TreeUtil.revparseTreeish repo (treeish2 opts) = Ok (t2 opts).
Proof.
  intros H.
  apply getOptions_Ok_inv in H as (Hsel & Ht1 & Ht2 & Hopts & Hpaths).
  apply selectTreeishes_spec in Hsel as (Hboth & Hfirst & Hsecond).
  rewrite Hopts, Hpaths.
  split; [exact Hboth |]. split; [| split; [| auto]].
  - intros t Ht. destruct (Hfirst t Ht) as [Hnot Hc].
    split; [exact Hc |]. split; [exact Hnot |].
    rewrite list_elem_of_filter, Ht. unfold differs.
    intros [Hkeep _]. apply andb_prop_elim in Hkeep as [Hkeep _].
    apply bool_decide_unpack in Hkeep. contradiction.
  - intros t Ht. destruct (Hsecond t Ht) as [Hnot Hc].
    split; [exact Hc |]. split; [exact Hnot |].
    rewrite list_elem_of_filter, Ht. unfold differs.
    intros [Hkeep _]. apply andb_prop_elim in Hkeep as [_ Hkeep].
    apply bool_decide_unpack in Hkeep. contradiction.
Qed.

(** X7. For a vector of the shape
    [... diff <options> -- <paths>], whose first ["diff"] precedes its
    first ["--"], the path filters of the record are [<paths>], the
    forwarded options are [<options>] less the tree-ish names, and the
    names are chosen against [<paths>]. *)
Theorem getOptions_with_separator (process : Process.t) (repo : Repository)
    (args : Args) (head options paths : list string) :
  Process.argv process = (head ++ "diff" :: options ++ "--" :: paths)%list ->
  "diff" ∉ head -> "--" ∉ head -> "--" ∉ options ->
  getOptions process repo args
  = let '(treeish1, treeish2) := selectTreeishes args paths in
    t1 ← TreeUtil.revparseTreeish repo treeish1;
    t2 ← TreeUtil.revparseTreeish repo treeish2;
    Ok {| diffOpts := new_DiffOptions;
          treeish1 := treeish1;
          treeish2 := treeish2;
          t1 := t1;
          t2 := t2;
          argOpts :=
            filter (λ w, differs w treeish1 && differs w treeish2) options;
          argPaths := paths |}.
Proof.
  intros Hargv Hdiff Hsep Hsep'. rewrite getOptions_cut, Hargv.
  destruct (argv_with_separator head options paths Hdiff Hsep Hsep')
    as [-> ->].
  reflexivity.
Qed.

(** X8. Without ["--"] in the vector there are no path filters, and the
    first two commit arguments, as far as they exist, are the tree-ish
    names. *)
Theorem getOptions_without_separator (process : Process.t)
    (repo : Repository) (args : Args) (opts : Options) :
  "--" ∉ Process.argv process ->
  getOptions process repo args = Ok opts ->
  argPaths opts = []
  /\ treeish1 opts = (default [] (commits args)) !! 0%nat
  /\ treeish2 opts = (default [] (commits args)) !! 1%nat.
Proof.
  intros Hsep H.
  apply getOptions_Ok_inv in H as (Hsel & _ & _ & _ & Hpaths).
  rewrite (argvPaths_without_separator _ Hsep) in Hsel, Hpaths.
  split; [exact Hpaths |].
  unfold selectTreeishes, includes in Hsel.
  destruct (commits args) as [[| c1 [| c2 more]] |]; simpl in *;
    injection Hsel as <- <-; auto.
Qed.

(** X9. Without the word ["diff"] (and without ["--"]) in the vector,
    everything after its first element is taken for options: the forwarded
    options are the rest of the vector less the tree-ish names. *)
Theorem getOptions_without_diff_word (process : Process.t)
    (repo : Repository) (args : Args) (opts : Options) :
  "diff" ∉ Process.argv process ->
  "--" ∉ Process.argv process ->
  getOptions process repo args = Ok opts ->
  argOpts opts
  = filter (λ w, differs w (treeish1 opts) && differs w (treeish2 opts))
      (tail (Process.argv process)).
Proof.
  intros Hdiff Hsep H.
  apply getOptions_Ok_inv in H as (_ & _ & _ & -> & _).
  f_equal. unfold argvOptions.
  rewrite (indexOf_absent _ _ Hdiff), (indexOf_absent _ _ Hsep).
  destruct (decide (-1 = -1)); [| contradiction].
  apply slice_tail.
Qed.

(** X10. [getOptions] throws nothing of its own: an error it throws is an
    error the resolver threw for one of the two tree-ish names. *)
Theorem getOptions_throws_from_resolver (process : Process.t)
    (repo : Repository) (args : Args) (e : exn) :
  getOptions process repo args = Throw e ->
  exists treeish,
    (treeish = (default [] (commits args)) !! 0%nat
     \/ treeish = (default [] (commits args)) !! 1%nat
     \/ treeish = None)
    /\ TreeUtil.revparseTreeish repo treeish = Throw e.
Proof.
  rewrite getOptions_cut.
  destruct (selectTreeishes args _) as [ts1 ts2] eqn:Hsel.
  apply selectTreeishes_spec in Hsel as (_ & Hfirst & Hsecond).
  intros H.
  destruct (TreeUtil.revparseTreeish repo ts1) as [r1 | e1] eqn:H1.
  - destruct (TreeUtil.revparseTreeish repo ts2) as [r2 | e2] eqn:H2;
      simpl in H; [discriminate H |].
    injection H as <-. exists ts2. split; [| exact H2].
    destruct ts2 as [t |]; [| auto].
    right. left. symmetry. apply (Hsecond t eq_refl).
  - simpl in H. injection H as <-. exists ts1. split; [| exact H1].
    destruct ts1 as [t |]; [| auto].
    left. symmetry. apply (Hfirst t eq_refl).
Qed.

End GetOptionsProperties.

Ltac by_deciding := apply (bool_decide_unpack _); vm_compute; exact I.

Lemma getOptions_invariants_witness :
  (is_Some (treeish2 SampleCmd.fullOptions)
   -> is_Some (treeish1 SampleCmd.fullOptions))
  /\ (forall t, treeish1 SampleCmd.fullOptions = Some t ->
        (default [] (Some ["HEAD"])) !! 0%nat = Some t
        /\ (t ∉ argPaths SampleCmd.fullOptions)
        /\ (t ∉ argOpts SampleCmd.fullOptions))
  /\ (forall t, treeish2 SampleCmd.fullOptions = Some t ->
        (default [] (Some ["HEAD"])) !! 1%nat = Some t
        /\ (t ∉ argPaths SampleCmd.fullOptions)
        /\ (t ∉ argOpts SampleCmd.fullOptions))
  /\ TreeUtil.revparseTreeish Sample.clean (treeish1 SampleCmd.fullOptions)
     = Ok (t1 SampleCmd.fullOptions)
  /\ TreeUtil.revparseTreeish Sample.clean (treeish2 SampleCmd.fullOptions)
     = Ok (t2 SampleCmd.fullOptions).
Proof.
  apply (getOptions_invariants SampleCmd.processFull Sample.clean
           {| commits := Some ["HEAD"] |} SampleCmd.fullOptions).
  vm_compute. reflexivity.
Defined.

Lemma getOptions_with_separator_witness :
  getOptions SampleCmd.processFull Sample.clean {| commits := Some ["HEAD"] |}
  = Ok SampleCmd.fullOptions.
Proof.
  rewrite (getOptions_with_separator SampleCmd.processFull Sample.clean
             {| commits := Some ["HEAD"] |}
             ["node"; "git-meta"] ["--stat"; "HEAD"] ["lib"; "x/a"]).
  - vm_compute. reflexivity.
  - reflexivity.
  - by_deciding.
  - by_deciding.
  - by_deciding.
Defined.

Lemma getOptions_without_separator_witness :
  argPaths SampleCmd.commitOptions = []
  /\ treeish1 SampleCmd.commitOptions
     = (default [] (Some ["HEAD"])) !! 0%nat
  /\ treeish2 SampleCmd.commitOptions
     = (default [] (Some ["HEAD"])) !! 1%nat.
Proof.
  apply (getOptions_without_separator Sample.processCommit Sample.clean
           {| commits := Some ["HEAD"] |} SampleCmd.commitOptions).
  - by_deciding.
  - vm_compute. reflexivity.
Defined.

Lemma getOptions_without_diff_word_witness :
  argOpts SampleCmd.aliasOptions
  = filter
      (λ w, differs w (treeish1 SampleCmd.aliasOptions)
            && differs w (treeish2 SampleCmd.aliasOptions))
      (tail (Process.argv SampleCmd.processAlias)).
Proof.
  apply (getOptions_without_diff_word SampleCmd.processAlias Sample.clean
           {| commits := Some ["HEAD"] |} SampleCmd.aliasOptions).
  - by_deciding.
  - by_deciding.
  - vm_compute. reflexivity.
Defined.

Lemma getOptions_throws_from_resolver_witness :
  exists treeish,
    (treeish = (default [] (Some ["nowhere"; "HEAD"])) !! 0%nat
     \/ treeish = (default [] (Some ["nowhere"; "HEAD"])) !! 1%nat
     \/ treeish = None)
    /\ TreeUtil.revparseTreeish (Api := SampleCmd.strictTreeUtil)
         Sample.clean treeish
       = Throw (UserError "unknown revision nowhere").
Proof.
  apply (getOptions_throws_from_resolver
           (treeUtil := SampleCmd.strictTreeUtil)
           Sample.processSecondOnly Sample.clean
           {| commits := Some ["nowhere"; "HEAD"] |}
           (UserError "unknown revision nowhere")).
  vm_compute. reflexivity.
Defined.

(** ** Translating path filters *)

(** Where the translation stands with respect to the directory that
    [subPath] names from the current directory. *)
Lemma relativePath_kept_below (cwd subPath p q : string) :
  relativePath cwd subPath p = Some q ->
  exists rest,
    Path.resolve cwd p = (Path.resolve cwd subPath ++ rest)%list
    /\ q = match rest with [] => "." | _ :: _ => join "/" rest end
    /\ String.prefix ".." q = false.
Proof.
  intros Hkept.
  destruct (decide (Path.resolve cwd subPath `prefix_of` Path.resolve cwd p))
    as [[rest Hrest] | Hout].
  - exists rest. split; [exact Hrest |].
    rewrite (relativePath_inside cwd subPath p rest Hrest) in Hkept.
    destruct rest as [| seg rest].
    + injection Hkept as <-. split; reflexivity.
    + destruct (String.prefix ".." seg) eqn:Hseg; [discriminate Hkept |].
      injection Hkept as <-. split; [reflexivity |].
      change (String.prefix ".." (join "/" (seg :: rest)) = false).
      rewrite prefix_dotdot_join. exact Hseg.
  - rewrite (relativePath_outside cwd subPath p Hout) in Hkept.
    discriminate Hkept.
Qed.

Lemma relativePath_dropped_below (cwd subPath p : string) :
  relativePath cwd subPath p = None
  <-> ¬ Path.resolve cwd subPath `prefix_of` Path.resolve cwd p
      \/ exists seg rest,
           Path.resolve cwd p
           = (Path.resolve cwd subPath ++ seg :: rest)%list
           /\ String.prefix ".." seg = true.
Proof.
  split.
  - intros Hdropped.
    destruct (decide (Path.resolve cwd subPath
                        `prefix_of` Path.resolve cwd p))
      as [[rest Hrest] | Hout]; [| left; exact Hout].
    right.
    rewrite (relativePath_inside cwd subPath p rest Hrest) in Hdropped.
    destruct rest as [| seg rest]; [discriminate Hdropped |].
    destruct (String.prefix ".." seg) eqn:Hseg; [| discriminate Hdropped].
    exists seg, rest. split; [exact Hrest | exact Hseg].
  - intros [Hout | (seg & rest & Hrest & Hseg)].
    + apply relativePath_outside, Hout.
    + rewrite (relativePath_inside cwd subPath p (seg :: rest) Hrest), Hseg.
      reflexivity.
Qed.

(** *** The submodule path, resolved from the meta root *)

Lemma split_slashFree (s : string) :
  Forall (fun seg => Segment.slashFree seg = true) (Path.split s).
Proof.
  induction s as [| c s IH]; simpl.
  - repeat constructor.
  - destruct (decide (c = "/"%char)) as [-> | Hc].
    + constructor; [reflexivity | exact IH].
    + destruct (Path.split s) as [| seg segs].
      * constructor; [| constructor]. simpl.
        destruct (decide (c = "/"%char)); [contradiction | reflexivity].
      * apply Forall_cons in IH as [Hseg Hsegs].
        constructor; [| exact Hsegs]. simpl.
        destruct (decide (c = "/"%char)); [contradiction | exact Hseg].
Qed.

Lemma split_of_slashFree (seg : string) :
  Segment.slashFree seg = true -> Path.split seg = [seg].
Proof.
  induction seg as [| c seg IH]; simpl; [reflexivity |].
  destruct (decide (c = "/"%char)); [discriminate |].
  intros Hfree. rewrite (IH Hfree). reflexivity.
Qed.

Lemma split_app_slash (seg s : string) :
  Segment.slashFree seg = true ->
  Path.split (seg +:+ "/" +:+ s) = seg :: Path.split s.
Proof.
  induction seg as [| c seg IH]; intros Hfree.
  - reflexivity.
  - simpl in Hfree.
    change (String c seg +:+ "/" +:+ s) with (String c (seg +:+ "/" +:+ s)).
    simpl Path.split.
    destruct (decide (c = "/"%char)); [discriminate Hfree |].
    rewrite (IH Hfree). reflexivity.
Qed.

Lemma split_join (segs : list string) :
  segs ≠ [] ->
  Forall (fun seg => Segment.slashFree seg = true) segs ->
  Path.split (join "/" segs) = segs.
Proof.
  induction segs as [| seg segs IH]; intros Hne Hfree; [contradiction |].
  apply Forall_cons in Hfree as [Hseg Hfree].
  destruct segs as [| next segs].
  - apply split_of_slashFree, Hseg.
  - change (join "/" (seg :: next :: segs))
      with (seg +:+ "/" +:+ join "/" (next :: segs)).
    rewrite (split_app_slash _ _ Hseg), IH; [reflexivity | discriminate |].
    exact Hfree.
Qed.

Lemma push_segment_Forall (P : string -> Prop) stack seg :
  Forall P stack -> P seg -> Forall P (Path.push_segment stack seg).
Proof.
  intros Hstack Hseg. unfold Path.push_segment.
  destruct (decide (seg = "" \/ seg = ".")); [exact Hstack |].
  destruct (decide (seg = "..")).
  - destruct Hstack; [constructor | assumption].
  - constructor; assumption.
Qed.

Lemma normalizeSegments_Forall (P : string -> Prop) segs :
  Forall P segs -> Forall P (Path.normalizeSegments segs).
Proof.
  unfold Path.normalizeSegments. intros Hsegs. apply Forall_rev.
  generalize (Forall_nil_2 P). generalize (@nil string) as stack.
  induction Hsegs as [| seg segs Hseg Hsegs IH]; intros stack Hstack; simpl.
  - exact Hstack.
  - apply IH, push_segment_Forall; assumption.
Qed.

Lemma push_segment_proper stack seg :
  Forall Segment.proper stack ->
  Forall Segment.proper (Path.push_segment stack seg).
Proof.
  intros Hstack. unfold Path.push_segment.
  destruct (decide (seg = "" \/ seg = ".")) as [_ | Hseg]; [exact Hstack |].
  destruct (decide (seg = "..")) as [_ | Hup].
  - destruct Hstack; [constructor | assumption].
  - constructor; [| exact Hstack]. unfold Segment.proper. tauto.
Qed.

Lemma normalizeSegments_proper segs :
  Forall Segment.proper (Path.normalizeSegments segs).
Proof.
  unfold Path.normalizeSegments. apply Forall_rev.
  generalize (Forall_nil_2 Segment.proper).
  generalize (@nil string) as stack.
  induction segs as [| seg segs IH]; intros stack Hstack; simpl.
  - exact Hstack.
  - apply IH, push_segment_proper, Hstack.
Qed.

Lemma resolve_slashFree (cwd p : string) :
  Forall (fun seg => Segment.slashFree seg = true) (Path.resolve cwd p).
Proof.
  unfold Path.resolve. apply normalizeSegments_Forall.
  destruct (Path.isAbsolute p); [apply split_slashFree |].
  apply Forall_app. split; apply split_slashFree.
Qed.

Lemma push_climbs (k : nat) : forall stack,
  fold_left Path.push_segment (replicate k "..") stack = drop k stack.
Proof.
  induction k as [| k IH]; intros stack; simpl.
  - rewrite drop_0. reflexivity.
  - rewrite IH. destruct stack; [apply drop_nil | reflexivity].
Qed.

Lemma push_descends (down : list string) : forall stack,
  Forall Segment.proper down ->
  fold_left Path.push_segment down stack = (rev down ++ stack)%list.
Proof.
  induction down as [| seg down IH]; intros stack Hdown; simpl.
  - reflexivity.
  - apply Forall_cons in Hdown as [(Hne & Hdot & Hup) Hdown].
    rewrite (IH _ Hdown). unfold Path.push_segment.
    destruct (decide (seg = "" \/ seg = ".")) as [[? | ?] | _];
      [contradiction | contradiction |].
    destruct (decide (seg = "..")); [contradiction |].
    rewrite <- app_assoc. reflexivity.
Qed.

Lemma join_not_absolute (seg : string) (segs : list string) :
  seg ≠ "" -> Segment.slashFree seg = true ->
  Path.isAbsolute (join "/" (seg :: segs)) = false.
Proof.
  intros Hne Hfree. destruct seg as [| c seg]; [contradiction |].
  simpl in Hfree. destruct (decide (c = "/"%char)) as [| Hc];
    [discriminate Hfree |].
  assert (Hhead : exists rest, join "/" (String c seg :: segs)
                               = String c rest).
  { destruct segs; [exists seg; reflexivity |]. eexists. reflexivity. }
  destruct Hhead as [rest ->]. unfold Path.isAbsolute.
  change (String.prefix "/" (String c rest))
    with (if ascii_dec "/" c then String.prefix "" rest else false).
  destruct (ascii_dec "/" c) as [E | _]; [| reflexivity].
  exfalso. apply Hc. symmetry. exact E.
Qed.

(** Resolving, from the directory [from] itself, the relative path that
    leads from [from] to [to] arrives at [to]. *)
Lemma resolve_relative (cwd from to : string) :
  Path.resolve cwd from = Path.resolve cwd "" ->
  Path.resolve cwd (Path.relative cwd from to) = Path.resolve cwd to.
Proof.
  intros Hroot.
  assert (Hcwd : Path.resolve cwd ""
                 = rev (fold_left Path.push_segment (Path.split cwd) [])).
  { unfold Path.resolve, Path.normalizeSegments.
    change (Path.isAbsolute "") with false. cbv iota.
    rewrite fold_left_app. reflexivity. }
  assert (Hrel : forall segs,
            segs ≠ [] ->
            Forall (fun seg => Segment.slashFree seg = true) segs ->
            (exists seg rest, segs = seg :: rest /\ seg ≠ "") ->
            Path.resolve cwd (join "/" segs)
            = rev (fold_left Path.push_segment segs
                     (fold_left Path.push_segment (Path.split cwd) []))).
  { intros segs Hne Hfree (seg & rest & -> & Hseg).
    unfold Path.resolve, Path.normalizeSegments.
    rewrite join_not_absolute;
      [| exact Hseg | apply Forall_cons in Hfree as [H _]; exact H].
    rewrite (split_join _ Hne Hfree), fold_left_app. reflexivity. }
  unfold Path.relative.
  destruct (Path.stripCommon _ _) as [up down] eqn:Hstrip.
  apply stripCommon_split in Hstrip as (common & Hfrom & Hto).
  rewrite Hroot in Hfrom.
  assert (Hdown : Forall Segment.proper down
                  /\ Forall (fun seg => Segment.slashFree seg = true) down).
  { split.
    - pose proof (normalizeSegments_proper
                    (if Path.isAbsolute to then Path.split to
                     else (Path.split cwd ++ Path.split to)%list)) as H.
      fold (Path.resolve cwd to) in H. rewrite Hto in H.
      apply Forall_app in H as [_ H]. exact H.
    - pose proof (resolve_slashFree cwd to) as H. rewrite Hto in H.
      apply Forall_app in H as [_ H]. exact H. }
  destruct Hdown as [Hproper Hfree].
  destruct (replicate (length up) ".." ++ down)%list as [| seg segs] eqn:HL.
  - apply app_eq_nil in HL as [Hup ->].
    destruct up; [| discriminate Hup].
    change (join "/" []) with "".
    rewrite Hto, Hfrom, !app_nil_r. reflexivity.
  - rewrite <- HL. rewrite Hrel.
    + rewrite fold_left_app, push_climbs, (push_descends _ _ Hproper).
      rewrite Hto. rewrite Hcwd in Hfrom.
      apply (f_equal (@rev string)) in Hfrom.
      rewrite rev_involutive in Hfrom. rewrite Hfrom, rev_app_distr.
      rewrite (rev_app_distr common up), <- (length_rev up).
      rewrite drop_app_length, !rev_involutive. reflexivity.
    + rewrite HL. discriminate.
    + apply Forall_app. split; [| exact Hfree].
      apply Forall_forall. intros x Hx.
      apply elem_of_replicate in Hx as [-> _]. reflexivity.
    + rewrite HL. exists seg, segs. split; [reflexivity |].
      destruct up as [| u up]; simpl in HL.
      * rewrite HL in Hproper.
        apply Forall_cons in Hproper as [(Hne & _) _]. exact Hne.
      * injection HL as <- _. discriminate.
Qed.

(** X11. When the process runs in the meta repository's working directory,
    a filter that is kept lies in the submodule's working directory and
    is translated to its path below that directory (["."] for the
    directory itself); the translation does not begin with two dots. *)
Theorem kept_filter_lies_in_submodule (cwd metaDir subDir p q : string) :
  Path.resolve cwd metaDir = Path.resolve cwd "" ->
  relativePath cwd (Path.relative cwd metaDir subDir) p = Some q ->
  exists rest,
    Path.resolve cwd p = (Path.resolve cwd subDir ++ rest)%list
    /\ q = match rest with [] => "." | _ :: _ => join "/" rest end
    /\ String.prefix ".." q = false.
Proof.
  intros Hroot Hkept.
  destruct (relativePath_kept_below _ _ _ _ Hkept) as (rest & Hrest & Hq).
  exists rest. rewrite (resolve_relative _ _ _ Hroot) in Hrest. auto.
Qed.

Lemma kept_filter_lies_in_submodule_witness :
  exists rest,
    Path.resolve "/home/u/meta" "./libs/x/lib/../src/a.c"
    = (Path.resolve "/home/u/meta" "/home/u/meta/libs/x/" ++ rest)%list
    /\ "src/a.c" = match rest with [] => "." | _ :: _ => join "/" rest end
    /\ String.prefix ".." "src/a.c" = false.
Proof.
  apply (kept_filter_lies_in_submodule
           "/home/u/meta" "/home/u/meta/" "/home/u/meta/libs/x/"
           "./libs/x/lib/../src/a.c" "src/a.c").
  - vm_compute. reflexivity.
  - vm_compute. reflexivity.
Defined.

(** X12. When the process runs in the meta repository's working directory,
    a filter is dropped exactly when it lies outside the submodule's
    working directory, or lies inside it below an entry whose name begins
    with two dots. *)
Theorem filter_dropped_iff (cwd metaDir subDir p : string) :
  Path.resolve cwd metaDir = Path.resolve cwd "" ->
  relativePath cwd (Path.relative cwd metaDir subDir) p = None
  <-> ¬ Path.resolve cwd subDir `prefix_of` Path.resolve cwd p
      \/ exists seg rest,
           Path.resolve cwd p
           = (Path.resolve cwd subDir ++ seg :: rest)%list
           /\ String.prefix ".." seg = true.
Proof.
  intros Hroot. rewrite relativePath_dropped_below.
  rewrite (resolve_relative _ _ _ Hroot). reflexivity.
Qed.

Lemma filter_dropped_iff_witness :
  relativePath "/home/u/meta"
    (Path.relative "/home/u/meta" "/home/u/meta/" "/home/u/meta/libs/x/")
    "libs/y/a"
  = None.
Proof.
  assert (Hroot : Path.resolve "/home/u/meta" "/home/u/meta/"
                  = Path.resolve "/home/u/meta" "")
    by (vm_compute; reflexivity).
  apply (proj2 (filter_dropped_iff "/home/u/meta" "/home/u/meta/"
                  "/home/u/meta/libs/x/" "libs/y/a" Hroot)).
  left. apply (bool_decide_unpack _). vm_compute. exact I.
Defined.

Section CommandProperties.
Context {Repository Tree Index : Type}.
Context {git : NodeGit.Api Repository Tree Index}.

(** X13. The command string is empty exactly when path filters are given
    and every one of them is dropped; in every other case it is a
    [git -C <submodule> diff] command. *)
Theorem subDiffCmdBuilder_empty_iff (process : Process.t)
    (metaRepo subRepo : Repository) (opts : @Options Tree) :
  let subPath :=
    Path.relative (Process.cwd process)
      (repo_workdir metaRepo) (repo_workdir subRepo) in
  (subDiffCmdBuilder process metaRepo subRepo opts = ""
   <-> argPaths opts ≠ []
       /\ forall p, p ∈ argPaths opts ->
            relativePath (Process.cwd process) subPath p = None)
  /\ (subDiffCmdBuilder process metaRepo subRepo opts ≠ "" ->
      String.prefix ("git -C " +:+ subPath +:+ " diff ")
        (subDiffCmdBuilder process metaRepo subRepo opts) = true).
Proof.
  assert (Hprefix : forall a b, String.prefix a (a +:+ b) = true).
  { induction a as [| c a IH]; intros b; simpl.
    - destruct b; reflexivity.
    - destruct (ascii_dec c c); [apply IH | contradiction]. }
  assert (Happ : forall a b c : string,
            (a +:+ b) +:+ c = a +:+ b +:+ c).
  { intros a b c. induction a as [| x a IH]; [reflexivity |].
    change (String x ((a +:+ b) +:+ c) = String x (a +:+ b +:+ c)).
    rewrite IH. reflexivity. }
  assert (Hassoc : forall a b c d : string,
            a +:+ b +:+ c +:+ d = (a +:+ b +:+ c) +:+ d)
    by (intros a b c d; rewrite !Happ; reflexivity).
  intros subPath. unfold subDiffCmdBuilder. fold subPath.
  destruct (decide (0 < length (argPaths opts))%nat) as [Hsome | Hnone];
    cbv zeta.
  - destruct (decide (length (omap _ (argPaths opts)) = 0%nat))
      as [Hall | Hkept].
    + split; [| intros H; contradiction].
      split; [| reflexivity]. intros _. split.
      * intros E. rewrite E in Hsome. simpl in Hsome. lia.
      * intros p Hp. apply length_zero_iff_nil in Hall.
        destruct (relativePath _ subPath p) as [q |] eqn:Hq;
          [| reflexivity].
        assert (Hin : q ∈ omap (relativePath (Process.cwd process) subPath)
                          (argPaths opts))
          by (apply list_elem_of_omap; eauto).
        rewrite Hall in Hin. inversion Hin.
    + split.
      * split; [intros E; discriminate E |].
        intros [_ Hdropped]. exfalso. apply Hkept.
        rewrite (omap_all_None _ _ Hdropped). reflexivity.
      * intros _. rewrite Hassoc. apply Hprefix.
  - split.
    + split; [intros E; discriminate E |].
      intros [Hne _]. exfalso. apply Hnone.
      destruct (argPaths opts); [contradiction | simpl; lia].
    + intros _. rewrite Hassoc. apply Hprefix.
Qed.

(** X14. The command for a submodule is made of the forwarded options and
    the path filters only: the tree-ish names and the trees of the targets
    never reach it. *)
Theorem subDiffCmdBuilder_ignores_trees (process : Process.t)
    (metaRepo subRepo : Repository) (opts opts' : @Options Tree) :
  argOpts opts = argOpts opts' ->
  argPaths opts = argPaths opts' ->
  subDiffCmdBuilder process metaRepo subRepo opts
  = subDiffCmdBuilder process metaRepo subRepo opts'.
Proof.
  intros Hopts Hpaths. unfold subDiffCmdBuilder.
  rewrite Hopts, Hpaths. reflexivity.
Qed.

End CommandProperties.

Lemma subDiffCmdBuilder_empty_iff_witness :
  String.prefix
    ("git -C "
     +:+ Path.relative (Process.cwd SampleCmd.processFull)
           (repo_workdir Sample.clean) (repo_workdir Sample.sub)
     +:+ " diff ")
    (subDiffCmdBuilder SampleCmd.processFull Sample.clean Sample.sub
       SampleCmd.fullOptions) = true.
Proof.
  apply (subDiffCmdBuilder_empty_iff SampleCmd.processFull
           Sample.clean Sample.sub SampleCmd.fullOptions).
  vm_compute. discriminate.
Defined.

Lemma subDiffCmdBuilder_ignores_trees_witness :
  subDiffCmdBuilder SampleCmd.processFull Sample.clean Sample.sub
    SampleCmd.commitOptions
  = subDiffCmdBuilder SampleCmd.processFull Sample.clean Sample.sub
      Sample.secondOnly.
Proof.
  apply (subDiffCmdBuilder_ignores_trees SampleCmd.processFull
           Sample.clean Sample.sub SampleCmd.commitOptions
           Sample.secondOnly); reflexivity.
Defined.

(** ** More on the merge-bare command *)

Section MergeBareTraces.
Import MergeBare.
Context {Repository Commit : Type}.
Context {env : MergeBare.Api Repository Commit}.

(** X15. When either commit name is missing, the command throws the user
    error "Two commits must be given." before doing anything else. *)
Theorem missing_commit_is_user_error (args : Args) :
  ourCommit args = None \/ theirCommit args = None ->
  executeableSubcommand args
  = MkCo [] (Throw (UserError "Two commits must be given.")).
Proof.
  unfold executeableSubcommand.
  intros [H | H]; rewrite H; [| destruct (ourCommit args)]; reflexivity.
Qed.

(** X16. The command prints the commit id the merge answered with, and
    nothing else; it prints nothing when the merge reported an error,
    answered without a commit, or was not reached. *)
Theorem merge_bare_output (args : Args) :
  Trace.printed (trace (executeableSubcommand args))
  = match mergeOutcome args with
    | Some answer =>
        match errorMessage answer, metaCommit answer with
        | None, Some id => [id]
        | _, _ => []
        end
    | None => []
    end.
Proof.
  unfold mergeOutcome, executeableSubcommand.
  destruct (ourCommit args) as [ours |]; simpl;
    [| destruct (theirCommit args); reflexivity].
  destruct (theirCommit args) as [theirs |]; simpl; [| reflexivity].
  destruct (resolveCommitish getCurrentRepo ours) as [ourId |]; simpl;
    [| reflexivity].
  destruct (resolveCommitish getCurrentRepo theirs) as [theirId |]; simpl;
    [| reflexivity].
  unfold mbind, Co_bind; simpl.
  destruct (errorMessage (merge _ _ _ _ _ _)); simpl; [reflexivity |].
  destruct (metaCommit (merge _ _ _ _ _ _)); reflexivity.
Qed.

(** X17. The merge engine is called at most once, and only with the two
    resolved commits, the mode FORCE_COMMIT exactly under [--no-ff], the
    open option FORCE_BARE and the message of the arguments. *)
Theorem merge_call_discipline (args : Args) :
  (mergeCalls (executeableSubcommand args) <= 1)%nat
  /\ forall ours theirs mode option msg,
       MergeCall ours theirs mode option msg
         ∈ trace (executeableSubcommand args) ->
       ourCommit args ≫= resolveCommitish getCurrentRepo = Some ours
       /\ theirCommit args ≫= resolveCommitish getCurrentRepo = Some theirs
       /\ mode = (if no_ff args then MergeCommon.FORCE_COMMIT
                  else MergeCommon.NORMAL)
       /\ option = Open.FORCE_BARE
       /\ msg = message args.
Proof.
  unfold executeableSubcommand, mergeCalls.
  destruct (ourCommit args) as [ours |]; simpl;
    [| destruct (theirCommit args); simpl;
       (split; [lia | intros ? ? ? ? ? H; inversion H])].
  destruct (theirCommit args) as [theirs |]; simpl;
    [| split; [lia | intros ? ? ? ? ? H; inversion H]].
  destruct (resolveCommitish getCurrentRepo ours) as [ourId |]; simpl;
    [| split; [lia | intros ? ? ? ? ? H; inversion H]].
  destruct (resolveCommitish getCurrentRepo theirs) as [theirId |]; simpl;
    [| split; [lia | intros ? ? ? ? ? H; inversion H]].
  unfold mbind, Co_bind; simpl.
  assert (Hcall : forall (tl : list event) a b m o msg,
            Forall (fun ev => isMergeCall ev = false) tl ->
            MergeCall a b m o msg
              ∈ MergeCall ourId theirId
                  (if no_ff args then MergeCommon.FORCE_COMMIT
                   else MergeCommon.NORMAL)
                  Open.FORCE_BARE (message args) :: tl ->
            Some ourId = Some a /\ Some theirId = Some b
            /\ m = (if no_ff args then MergeCommon.FORCE_COMMIT
                    else MergeCommon.NORMAL)
            /\ o = Open.FORCE_BARE /\ msg = message args).
  { intros tl a b m o msg Hall Hin.
    apply elem_of_cons in Hin as [E | Hin].
    - injection E as -> -> -> -> ->. auto.
    - rewrite Forall_forall in Hall. apply Hall in Hin. discriminate Hin. }
  destruct (errorMessage (merge _ _ _ _ _ _)); simpl.
  - split; [reflexivity |]. intros a b m o msg. apply Hcall. constructor.
  - destruct (metaCommit (merge _ _ _ _ _ _)); simpl;
      (split; [reflexivity |]); intros a b m o msg; apply Hcall;
      repeat constructor.
Qed.

(** X18. When the first name does not resolve, the error names it,
    whether or not the second name resolves. *)
Theorem first_unresolved_commit_is_reported (args : Args)
    (ours theirs : string) :
  ourCommit args = Some ours ->
  theirCommit args = Some theirs ->
  resolveCommitish getCurrentRepo ours = None ->
  executeableSubcommand args
  = MkCo []
      (Throw (UserError
         ("Could not resolve " +:+ colors_red ours +:+ " to a commit."))).
Proof.
  intros Hours Htheirs Hnone. unfold executeableSubcommand.
  rewrite Hours, Htheirs, Hnone. reflexivity.
Qed.

(** X19. After a merge without error the events are, in this order: the
    call of the merge engine, the printing of the commit id if there is
    one, and the post-merge hook with the single argument "0". *)
Theorem merge_bare_success_order (args : Args) (answer : MergeResult) :
  mergeOutcome args = Some answer ->
  errorMessage answer = None ->
  exists ours theirs,
    executeableSubcommand args
    = MkCo
        (MergeCall ours theirs
           (if no_ff args then MergeCommon.FORCE_COMMIT
            else MergeCommon.NORMAL)
           Open.FORCE_BARE (message args)
         :: match metaCommit answer with
            | Some id => [ConsoleLog id]
            | None => []
            end
         ++ [ExecHook "post-merge" ["0"]])%list
        (Ok tt).
Proof.
  unfold mergeOutcome, executeableSubcommand.
  destruct (ourCommit args) as [ours |]; simpl; [| discriminate].
  destruct (theirCommit args) as [theirs |]; simpl; [| discriminate].
  destruct (resolveCommitish getCurrentRepo ours) as [ourId |]; simpl;
    [| discriminate].
  destruct (resolveCommitish getCurrentRepo theirs) as [theirId |]; simpl;
    [| discriminate].
  intros [= <-] Hnone. exists ourId, theirId.
  unfold mbind, Co_bind; simpl. rewrite Hnone. simpl.
  destruct (metaCommit (merge _ _ _ _ _ _)); reflexivity.
Qed.

End MergeBareTraces.

Lemma missing_commit_is_user_error_witness :
  MergeBare.executeableSubcommand (env := SampleCmd.merging)
    {| MergeBare.no_ff := true;
       MergeBare.ourCommit := Some "main";
       MergeBare.theirCommit := None;
       MergeBare.message := "merge" |}
  = MkCo [] (Throw (UserError "Two commits must be given.")).
Proof.
  apply (missing_commit_is_user_error (env := SampleCmd.merging)).
  right. reflexivity.
Defined.

Lemma merge_call_discipline_witness :
  Some "main" = Some "main"
  /\ Some "topic" = Some "topic"
  /\ MergeCommon.NORMAL = MergeCommon.NORMAL
  /\ Open.FORCE_BARE = Open.FORCE_BARE
  /\ "merge" = "merge".
Proof.
  apply (proj2 (merge_call_discipline (env := SampleCmd.merging)
                  (Sample.mergeArgs "main" "topic"))
           "main" "topic" MergeCommon.NORMAL Open.FORCE_BARE "merge").
  vm_compute. apply list_elem_of_here.
Defined.

Lemma first_unresolved_commit_is_reported_witness :
  MergeBare.executeableSubcommand (env := SampleCmd.merging)
    (Sample.mergeArgs "gone" "lost")
  = MkCo []
      (Throw (UserError
         ("Could not resolve " +:+ Sample.red "gone" +:+ " to a commit."))).
Proof.
  apply (first_unresolved_commit_is_reported (env := SampleCmd.merging)
           (Sample.mergeArgs "gone" "lost") "gone" "lost");
    reflexivity.
Defined.

Lemma merge_bare_success_order_witness :
  exists ours theirs,
    MergeBare.executeableSubcommand (env := SampleCmd.merging)
      (Sample.mergeArgs "main" "topic")
    = MkCo
        [ MergeCall ours theirs MergeCommon.NORMAL Open.FORCE_BARE "merge";
          ConsoleLog "c0ffee";
          ExecHook "post-merge" ["0"] ]
        (Ok tt).
Proof.
  apply (merge_bare_success_order (env := SampleCmd.merging)
           (Sample.mergeArgs "main" "topic")
           {| MergeBare.metaCommit := Some "c0ffee";
              MergeBare.errorMessage := None |});
    reflexivity.
Defined.

(** ** The diff command *)

Section DiffCommandProperties.
Import DiffCmd.
Context {Repository Tree Index Changes : Type}.
Context {git : NodeGit.Api Repository Tree Index}.
Context {treeUtil : TreeUtil.Api Repository Tree}.
Context {shell : ChildProcess.Api}.
Context {env : DiffCmd.Api Repository Tree Changes}.

Lemma round_passes (process : Process.t) (repo : Repository)
    (opts : @Options Tree) (name : string) :
  passes process repo opts name ->
  round process repo opts name
  = MkCo (visit process repo opts name) (Ok tt).
Proof.
  intros (subRepo & Hopen & Hcmd & Hexit). unfold round, visit.
  rewrite Hopen. unfold mbind, Co_bind, lift; simpl.
  unfold printDiff, ChildProcess.spawn.
  destruct (decide (_ = "")); [contradiction |].
  unfold mbind, Co_bind; simpl.
  destruct (decide (_ = 0)); [reflexivity | contradiction].
Qed.

Lemma printDiffs_cons (process : Process.t) (repo : Repository)
    (opts : @Options Tree) (name : string) (names : list string) :
  printDiffs process repo opts (name :: names)
  = (_ ← round process repo opts name; printDiffs process repo opts names).
Proof.
  change (printDiffs process repo opts (name :: names))
    with (subRepo ← lift (getSubrepo repo name Open.FORCE_OPEN);
          _ ← printDiff process repo subRepo opts;
          printDiffs process repo opts names).
  unfold round.
  destruct (getSubrepo repo name Open.FORCE_OPEN) as [subRepo | e];
    [| reflexivity].
  cbv beta iota zeta delta [mbind Co_bind lift outcome trace].
  generalize (printDiff process repo subRepo opts).
  intros [events [[] | e]]; reflexivity.
Qed.

Lemma printDiffs_all_pass (process : Process.t) (repo : Repository)
    (opts : @Options Tree) (names : list string) :
  Forall (passes process repo opts) names ->
  printDiffs process repo opts names
  = MkCo (flat_map (visit process repo opts) names) (Ok tt).
Proof.
  induction names as [| name names IH]; intros Hall.
  - reflexivity.
  - apply Forall_cons in Hall as [Hname Hall].
    rewrite printDiffs_cons, (round_passes _ _ _ _ Hname), (IH Hall).
    reflexivity.
Qed.

Lemma printDiffs_stops (process : Process.t) (repo : Repository)
    (opts : @Options Tree) (before after : list string) (bad : string)
    (e : exn) :
  Forall (passes process repo opts) before ->
  outcome (round process repo opts bad) = Throw e ->
  printDiffs process repo opts (before ++ bad :: after)
  = MkCo
      (flat_map (visit process repo opts) before
       ++ trace (round process repo opts bad))
      (Throw e).
Proof.
  intros Hall Hbad.
  induction before as [| name before IH].
  - rewrite app_nil_l, printDiffs_cons.
    unfold mbind at 1, Co_bind at 1. rewrite Hbad. reflexivity.
  - apply Forall_cons in Hall as [Hname Hall].
    rewrite <- app_comm_cons, printDiffs_cons,
      (round_passes _ _ _ _ Hname), (IH Hall).
    unfold mbind, Co_bind. cbn [outcome trace flat_map].
    rewrite app_assoc. reflexivity.
Qed.

(** X20. When the targets resolve and every changed submodule can be
    opened, has a command string that is not empty and a command that
    exits with 0, the command visits the changed submodules in the order
    of the change object's keys, logging and spawning one command for
    each, then prints the final record and succeeds. *)
Theorem diff_visits_every_changed_submodule (process : Process.t)
    (args : DiffUtil.Args) (opts : @Options Tree) :
  let repo := getCurrentRepo in
  let changes :=
    getSubmoduleChangesFromDiff (getDiffWithOptions repo opts) true in
  getOptions process repo args = Ok opts ->
  Forall
    (fun name =>
       exists subRepo,
         getSubrepo repo name Open.FORCE_OPEN = Ok subRepo
         /\ subDiffCmdBuilder process repo subRepo opts ≠ ""
         /\ ChildProcess.exitCode
              (subDiffCmdBuilder process repo subRepo opts) = 0)
    (changeNames changes) ->
  executeableSubcommand process args
  = MkCo
      (flat_map (visit process repo opts) (changeNames changes)
       ++ [ConsoleLog (stringify opts changes (Process.argv process))])
      (Ok tt)
  /\ length (Trace.spawned (trace (executeableSubcommand process args)))
     = length (changeNames changes).
Proof.
  intros repo changes Hopts Hall.
  assert (Hrun : executeableSubcommand process args
                 = MkCo
                     (flat_map (visit process repo opts) (changeNames changes)
                      ++ [ConsoleLog
                            (stringify opts changes (Process.argv process))])
                     (Ok tt)).
  { unfold executeableSubcommand. fold repo. rewrite Hopts.
    unfold mbind, Co_bind, lift; simpl. fold changes.
    rewrite (printDiffs_all_pass process repo opts _ Hall). reflexivity. }
  split; [exact Hrun |]. rewrite Hrun. simpl.
  unfold Trace.spawned. rewrite omap_app. simpl. rewrite app_nil_r.
  clear Hrun.
  induction Hall as [| name names Hname Hall IH]; [reflexivity |].
  simpl. rewrite omap_app, length_app, IH. f_equal.
  destruct Hname as (subRepo & Hopen & Hcmd & Hexit).
  unfold visit. rewrite Hopen. unfold printDiff, ChildProcess.spawn.
  destruct (decide (_ = "")); [contradiction |].
  unfold mbind, Co_bind; simpl.
  destruct (decide (_ = 0)); [reflexivity | contradiction].
Qed.

(** X21. When the targets do not resolve, the command throws the
    resolver's error and has neither printed nor spawned anything. *)
Theorem diff_fails_with_getOptions (process : Process.t)
    (args : DiffUtil.Args) (e : exn) :
  getOptions process getCurrentRepo args = Throw e ->
  executeableSubcommand process args = MkCo [] (Throw e).
Proof.
  intros Hopts. unfold executeableSubcommand. rewrite Hopts. reflexivity.
Qed.

(** X22. The command stops at the first changed submodule whose round
    throws, be it the opener, the refusal of an empty command or a
    command that exits with another code than 0: it throws that error
    after the events of the rounds before and of the failing round; the
    submodules after it are not visited and the final record is not
    printed. *)
Theorem diff_stops_at_first_failing_submodule (process : Process.t)
    (args : DiffUtil.Args) (opts : @Options Tree)
    (before after : list string) (bad : string) (e : exn) :
  let repo := getCurrentRepo in
  let changes :=
    getSubmoduleChangesFromDiff (getDiffWithOptions repo opts) true in
  getOptions process repo args = Ok opts ->
  changeNames changes = (before ++ bad :: after)%list ->
  Forall
    (fun name =>
       exists subRepo,
         getSubrepo repo name Open.FORCE_OPEN = Ok subRepo
         /\ subDiffCmdBuilder process repo subRepo opts ≠ ""
         /\ ChildProcess.exitCode
              (subDiffCmdBuilder process repo subRepo opts) = 0)
    before ->
  outcome (round process repo opts bad) = Throw e ->
  executeableSubcommand process args
  = MkCo
      (flat_map (visit process repo opts) before
       ++ trace (round process repo opts bad))
      (Throw e).
Proof.
  intros repo changes Hopts Hnames Hall Hbad.
  unfold executeableSubcommand. fold repo. rewrite Hopts.
  unfold mbind at 1, Co_bind at 1, lift; simpl. fold changes. rewrite Hnames.
  unfold mbind, Co_bind.
  rewrite (printDiffs_stops process repo opts before after bad e Hall Hbad).
  reflexivity.
Qed.

End DiffCommandProperties.

Lemma diff_visits_every_changed_submodule_witness :
  DiffCmd.executeableSubcommand (env := SampleCmd.diffCmd ["x"; "y"])
    Sample.processCommit {| commits := Some ["HEAD"] |}
  = MkCo
      [ ConsoleLog "qqqq execStr = 'git -C x diff  '";
        Spawn "git -C x diff  ";
        ConsoleLog "qqqq execStr = 'git -C y diff  '";
        Spawn "git -C y diff  ";
        ConsoleLog "{}" ]
      (Ok tt)
  /\ length
       (Trace.spawned
          (trace
             (DiffCmd.executeableSubcommand
                (env := SampleCmd.diffCmd ["x"; "y"])
                Sample.processCommit {| commits := Some ["HEAD"] |})))
     = 2%nat.
Proof.
  refine (diff_visits_every_changed_submodule
            (env := SampleCmd.diffCmd ["x"; "y"])
            Sample.processCommit {| commits := Some ["HEAD"] |}
            SampleCmd.commitOptions _ _ : _).
  - vm_compute. reflexivity.
  - repeat constructor; eexists;
      (split; [reflexivity | split; [vm_compute; discriminate
                                    | reflexivity]]).
Defined.

Lemma diff_fails_with_getOptions_witness :
  DiffCmd.executeableSubcommand (treeUtil := SampleCmd.strictTreeUtil)
    (env := SampleCmd.diffCmd ["x"; "y"])
    Sample.processSecondOnly {| commits := Some ["nowhere"; "HEAD"] |}
  = MkCo [] (Throw (UserError "unknown revision nowhere")).
Proof.
  apply (diff_fails_with_getOptions (treeUtil := SampleCmd.strictTreeUtil)
           (env := SampleCmd.diffCmd ["x"; "y"])).
  vm_compute. reflexivity.
Defined.

Lemma diff_stops_at_first_failing_submodule_witness :
  DiffCmd.executeableSubcommand (env := SampleCmd.diffCmd ["x"; "y"; "z"])
    SampleCmd.processFull {| commits := Some ["HEAD"] |}
  = MkCo
      [ ConsoleLog "qqqq execStr = 'git -C x diff --stat  -- a'";
        Spawn "git -C x diff --stat  -- a";
        ConsoleLog "qqqq execStr = ''" ]
      (Throw (TypeError "The argument 'file' cannot be empty. Received ''")).
Proof.
  refine (diff_stops_at_first_failing_submodule
            (env := SampleCmd.diffCmd ["x"; "y"; "z"])
            SampleCmd.processFull {| commits := Some ["HEAD"] |}
            SampleCmd.fullOptions ["x"] ["z"] "y"
            (TypeError "The argument 'file' cannot be empty. Received ''")
            _ _ _ _ : _).
  - vm_compute. reflexivity.
  - reflexivity.
  - repeat constructor; eexists;
      (split; [reflexivity | split; [vm_compute; discriminate
                                    | reflexivity]]).
  - vm_compute. reflexivity.
Defined.
